(** * Shallow embedding of esphome_mqtt_timescaledb_ingestor/ingestor.py

    The message callback [on_mqtt_message], the database writer loop
    [db_writer_thread] (one loop iteration at a time) and the [start]
    command are embedded below.  Python strings are modelled as their
    UTF-8 encoded bytes (Rocq [string]); since both the topic and the
    decoded payload are valid UTF-8, substring tests, suffix tests and
    splitting on '/' agree with Python's code-point operations. *)

From Stdlib Require Import String Ascii List Bool Arith Lia.
Import ListNotations.
Open Scope string_scope.
Open Scope list_scope.
Set Warnings "-register-all".

(* ------------------------------------------------------------------ *)
(** ** Python string helpers *)

Module Py.

(** [sub in s] *)
Fixpoint contains (sub s : string) : bool :=
  String.prefix sub s ||
  match s with
  | EmptyString => false
  | String _ s' => contains sub s'
  end.

(** [s.endswith(suf)] *)
Definition endswith (suf s : string) : bool :=
  let n := String.length s in
  let m := String.length suf in
  (Nat.leb m n) && String.eqb (substring (n - m) m s) suf.

(** [s.split('/')] *)
Fixpoint split_slash_aux (cur : string) (s : string) : list string :=
  match s with
  | EmptyString => [cur]
  | String c s' =>
      if Ascii.eqb c "/"%char then cur :: split_slash_aux EmptyString s'
      else split_slash_aux (cur ++ String c EmptyString) s'
  end.

Definition split_slash (s : string) : list string := split_slash_aux EmptyString s.

(** [s.split('/')[0]]: the list returned by [split] is never empty. *)
Definition first_segment (s : string) : string := nth 0 (split_slash s) EmptyString.

(** [s.replace('-', '_')] *)
Fixpoint replace_dash (s : string) : string :=
  match s with
  | EmptyString => EmptyString
  | String c s' =>
      String (if Ascii.eqb c "-"%char then "_"%char else c) (replace_dash s')
  end.

End Py.

(* ------------------------------------------------------------------ *)
(** ** Strict UTF-8 decoding ([bytes.decode("utf-8")])

    Python's strict decoder accepts exactly the well-formed byte
    sequences of the Unicode standard (Table 3-7): no overlong forms,
    no surrogates, nothing above U+10FFFF. *)

Module Utf8.

Definition in_range (lo hi b : nat) : bool := Nat.leb lo b && Nat.leb b hi.
Definition cont (b : nat) : bool := in_range 128 191 b.

Fixpoint valid (l : list nat) : bool :=
  match l with
  | [] => true
  | b :: r =>
      if Nat.leb b 127 then valid r
      else if in_range 194 223 b then
        match r with c1 :: r1 => cont c1 && valid r1 | [] => false end
      else if in_range 224 239 b then
        match r with
        | c1 :: c2 :: r2 =>
            (if Nat.eqb b 224 then in_range 160 191 c1
             else if Nat.eqb b 237 then in_range 128 159 c1
             else cont c1) && cont c2 && valid r2
        | _ => false
        end
      else if in_range 240 244 b then
        match r with
        | c1 :: c2 :: c3 :: r3 =>
            (if Nat.eqb b 240 then in_range 144 191 c1
             else if Nat.eqb b 244 then in_range 128 143 c1
             else cont c1) && cont c2 && cont c3 && valid r3
        | _ => false
        end
      else false
  end.

Definition bytes_of (s : string) : list nat := map nat_of_ascii (list_ascii_of_string s).

(** [payload.decode("utf-8")]: [None] stands for [UnicodeDecodeError]. *)
Definition decode (payload : string) : option string :=
  if valid (bytes_of payload) then Some payload else None.

End Utf8.

(* ------------------------------------------------------------------ *)
(** ** JSON values as returned by [json.loads] *)

Inductive json : Type :=
| JNull
| JBool (b : bool)
| JNum (lit : string)
| JStr (s : string)
| JArr (xs : list json)
| JObj (fields : list (string * json)).

(** A Python dict built by [json.loads] keeps the last value of a
    repeated key. *)
Fixpoint obj_lookup (k : string) (l : list (string * json)) : option json :=
  match l with
  | [] => None
  | (k', v) :: r =>
      match obj_lookup k r with
      | Some x => Some x
      | None => if String.eqb k k' then Some v else None
      end
  end.

Fixpoint json_eqb (a b : json) : bool :=
  match a, b with
  | JNull, JNull => true
  | JBool x, JBool y => Bool.eqb x y
  | JNum x, JNum y => String.eqb x y
  | JStr x, JStr y => String.eqb x y
  | JArr xs, JArr ys =>
      (fix go (xs ys : list json) : bool :=
         match xs, ys with
         | [], [] => true
         | x :: xs', y :: ys' => json_eqb x y && go xs' ys'
         | _, _ => false
         end) xs ys
  | JObj xs, JObj ys =>
      (fix go (xs ys : list (string * json)) : bool :=
         match xs, ys with
         | [], [] => true
         | (kx, x) :: xs', (ky, y) :: ys' =>
             String.eqb kx ky && json_eqb x y && go xs' ys'
         | _, _ => false
         end) xs ys
  | _, _ => false
  end.

(** Python exceptions that the embedded code can raise.  [DbError]
    stands for every [psycopg2.Error]. *)
Inductive exn : Type :=
| DbError
| KeyError
| IndexError
| TypeError
| AttributeError.

(** [j[k]] for a string key [k]. *)
Definition getitem (j : json) (k : string) : exn + json :=
  match j with
  | JObj l => match obj_lookup k l with Some v => inr v | None => inl KeyError end
  | _ => inl TypeError
  end.

(** [j.get(k, default)] *)
Definition get (j : json) (k : string) (default : json) : exn + json :=
  match j with
  | JObj l => match obj_lookup k l with Some v => inr v | None => inr default end
  | _ => inl AttributeError
  end.

(** [k in j] for a string [k]. *)
Definition contains_key (k : string) (j : json) : exn + bool :=
  match j with
  | JObj l => inr (match obj_lookup k l with Some _ => true | None => false end)
  | JArr xs => inr (existsb (json_eqb (JStr k)) xs)
  | JStr s => inr (Py.contains k s)
  | _ => inl TypeError
  end.

(** [j[0]] *)
Definition index0 (j : json) : exn + json :=
  match j with
  | JArr (x :: _) => inr x
  | JArr [] => inl IndexError
  | JStr (String c _) => inr (JStr (String c EmptyString))
  | JStr EmptyString => inl IndexError
  | JObj _ => inl KeyError  (* JSON object keys are strings, never 0 *)
  | _ => inl TypeError
  end.

(* ------------------------------------------------------------------ *)
(** ** The five queues (and, with the same shape, the five batches) *)

Record five : Type := mkFive {
  f_discovery : list json;
  f_entity : list json;
  f_status : list (string * string);
  f_state : list (string * string);
  f_command : list (string * string)
}.

Definition empty_five : five := mkFive [] [] [] [] [].

Definition push_discovery (x : json) (q : five) : five :=
  mkFive (f_discovery q ++ [x]) (f_entity q) (f_status q) (f_state q) (f_command q).
Definition push_entity (x : json) (q : five) : five :=
  mkFive (f_discovery q) (f_entity q ++ [x]) (f_status q) (f_state q) (f_command q).
Definition push_status (x : string * string) (q : five) : five :=
  mkFive (f_discovery q) (f_entity q) (f_status q ++ [x]) (f_state q) (f_command q).
Definition push_state (x : string * string) (q : five) : five :=
  mkFive (f_discovery q) (f_entity q) (f_status q) (f_state q ++ [x]) (f_command q).
Definition push_command (x : string * string) (q : five) : five :=
  mkFive (f_discovery q) (f_entity q) (f_status q) (f_state q) (f_command q ++ [x]).

(* ------------------------------------------------------------------ *)
(** ** [on_mqtt_message]

    [json_loads] is Python's [json.loads] on a decoded string: the
    parsed value, or the exception it raises.  Besides
    [json.JSONDecodeError] on malformed text it raises [RecursionError]
    on deeply nested arrays or objects and [ValueError] on an integer
    literal above the interpreter's digit limit; only the first is
    caught by [except json.JSONDecodeError].  The callback returns the
    new queues and what it logged. *)

Inductive loads_exn : Type :=
| JSONDecodeError
| RecursionError
| ValueError.

Inductive log_entry : Type :=
| LogNothing
| LogJsonWarning   (* logger.warning("Could not decode JSON ...") *)
| LogError.        (* logger.error("Error processing message ...") *)

Section OnMessage.

Variable json_loads : string -> loads_exn + json.

Definition on_mqtt_message (topic payload : string) (q : five) : five * log_entry :=
  match Utf8.decode payload with
  | None => (q, LogError)                      (* UnicodeDecodeError *)
  | Some payload_str =>
      if Py.contains "esphome/discover" topic then
        match json_loads payload_str with
        | inr d => (push_discovery d q, LogNothing)
        | inl JSONDecodeError => (q, LogJsonWarning)
        | inl _ => (q, LogError)
        end
      else if Py.contains "homeassistant" topic && Py.endswith "/config" topic then
        match json_loads payload_str with
        | inl JSONDecodeError => (q, LogJsonWarning)
        | inl _ => (q, LogError)
        | inr entity_data =>
            match contains_key "device" entity_data with
            | inl _ => (q, LogError)
            | inr false => (q, LogNothing)
            | inr true =>
                match getitem entity_data "device" with
                | inl _ => (q, LogError)
                | inr dev =>
                    match contains_key "identifiers" dev with
                    | inl _ => (q, LogError)
                    | inr true => (push_entity entity_data q, LogNothing)
                    | inr false => (q, LogNothing)
                    end
                end
            end
        end
      else if Py.endswith "/status" topic then (push_status (topic, payload_str) q, LogNothing)
      else if Py.endswith "/state" topic then (push_state (topic, payload_str) q, LogNothing)
      else if Py.endswith "/command" topic then (push_command (topic, payload_str) q, LogNothing)
      else (q, LogNothing)
  end.

End OnMessage.

(* ------------------------------------------------------------------ *)
(** ** The database

    A table has an optional primary-key column, its rows, and whether it
    has been registered with [create_hypertable].  Cells are what
    psycopg2 sends: a text, NULL, another adapted Python value, or a
    JSONB document produced by [json.dumps]. *)

Inductive cell : Type :=
| CNull
| CText (s : string)
| CPy (j : json)
| CJsonb (j : json).

Definition cell_eqb (a b : cell) : bool :=
  match a, b with
  | CNull, CNull => true
  | CText x, CText y => String.eqb x y
  | CPy x, CPy y => json_eqb x y
  | CJsonb x, CJsonb y => json_eqb x y
  | _, _ => false
  end.

(** A Python value handed to psycopg2 as a query parameter. *)
Definition to_cell (j : json) : cell :=
  match j with
  | JNull => CNull
  | JStr s => CText s
  | _ => CPy j
  end.

Definition row := list cell.

Record table : Type := mkTable {
  tkey : option nat;
  trows : list row;
  thyper : bool
}.

Definition db := list (string * table).

Fixpoint db_lookup (n : string) (v : db) : option table :=
  match v with
  | [] => None
  | (n', t) :: r => if String.eqb n n' then Some t else db_lookup n r
  end.

Fixpoint db_update (n : string) (t : table) (v : db) : db :=
  match v with
  | [] => []
  | (n', t') :: r => if String.eqb n n' then (n', t) :: r else (n', t') :: db_update n t r
  end.

(** Rows of a table, empty when the table does not exist. *)
Definition rows_of (n : string) (v : db) : list row :=
  match db_lookup n v with Some t => trows t | None => [] end.

Definition is_hypertable (n : string) (v : db) : bool :=
  match db_lookup n v with Some t => thyper t | None => false end.

(** SQL statements issued by the module. *)
Inductive stmt : Type :=
| SConnect
| SCreate (name : string) (key : option nat)   (* CREATE TABLE IF NOT EXISTS *)
| SHyper (name : string)                        (* SELECT create_hypertable(..., if_not_exists => TRUE) *)
| SInsert (name : string) (rows : list row)     (* INSERT ... VALUES %s *)
| SUpsert (name : string) (rows : list row)     (* INSERT ... ON CONFLICT (key) DO UPDATE SET <all other columns> *)
| SCommit.

Definition key_of (k : nat) (r : row) : cell := nth k r CNull.

Definition has_key (k : nat) (c : cell) (rows : list row) : bool :=
  existsb (fun e => cell_eqb (key_of k e) c) rows.

(** [INSERT ... ON CONFLICT (key) DO UPDATE]: a NULL key violates the
    primary key's NOT NULL; a key proposed twice by the same statement
    is refused ("ON CONFLICT DO UPDATE command cannot affect row a
    second time"); a key already stored has its row overwritten. *)
Fixpoint upsert_rows (k : nat) (seen : list cell) (rows existing : list row)
  : option (list row) :=
  match rows with
  | [] => Some existing
  | r :: rs =>
      let c := key_of k r in
      if cell_eqb c CNull then None
      else if existsb (cell_eqb c) seen then None
      else
        let existing' :=
          if has_key k c existing
          then map (fun e => if cell_eqb (key_of k e) c then r else e) existing
          else existing ++ [r] in
        upsert_rows k (c :: seen) rs existing'
  end.

(** Plain [INSERT]: with a primary key, a NULL or already stored key is
    refused; without one, rows are appended. *)
Fixpoint insert_rows (key : option nat) (rows existing : list row) : option (list row) :=
  match rows with
  | [] => Some existing
  | r :: rs =>
      match key with
      | Some k =>
          let c := key_of k r in
          if cell_eqb c CNull || has_key k c existing then None
          else insert_rows key rs (existing ++ [r])
      | None => insert_rows key rs (existing ++ [r])
      end
  end.

(** Effect of a statement on the transaction's view of the database;
    [None] is the error the server reports. *)
Definition apply_stmt (s : stmt) (v : db) : option db :=
  match s with
  | SConnect | SCommit => Some v
  | SCreate n k =>
      match db_lookup n v with
      | Some _ => Some v
      | None => Some (v ++ [(n, mkTable k [] false)])
      end
  | SHyper n =>
      match db_lookup n v with
      | None => None
      | Some t =>
          if thyper t then Some v
          else match trows t with
               | [] => Some (db_update n (mkTable (tkey t) (trows t) true) v)
               | _ => None   (* table not empty *)
               end
      end
  | SInsert n rows =>
      match db_lookup n v with
      | None => None
      | Some t =>
          match insert_rows (tkey t) rows (trows t) with
          | Some rs => Some (db_update n (mkTable (tkey t) rs (thyper t)) v)
          | None => None
          end
      end
  | SUpsert n rows =>
      match db_lookup n v with
      | Some (mkTable (Some k) rs h) =>
          match upsert_rows k [] rows rs with
          | Some rs' => Some (db_update n (mkTable (Some k) rs' h) v)
          | None => None
          end
      | _ => None   (* no table, or no unique constraint to conflict on *)
      end
  end.

(* ------------------------------------------------------------------ *)
(** ** State of the writer thread

    [conn] is the open connection, given by the database as seen inside
    its current transaction ([None]: [conn is None or conn.closed]);
    [server] is the committed database.  [queues] are the five module
    queues, [batches] the five local batch lists of [db_writer_thread]. *)

Record pstate : Type := mkPState {
  conn : option db;
  server : db;
  queues : five;
  batches : five
}.

Definition set_conn (c : option db) (st : pstate) : pstate :=
  mkPState c (server st) (queues st) (batches st).
Definition set_batches (b : five) (st : pstate) : pstate :=
  mkPState (conn st) (server st) (queues st) b.

(** A state and exception monad: Python mutations made before an
    exception is raised stay in effect. *)
Definition M (A : Type) : Type := pstate -> (exn + A) * pstate.

Definition ret {A} (a : A) : M A := fun st => (inr a, st).
Definition bind {A B} (m : M A) (k : A -> M B) : M B :=
  fun st => match m st with
            | (inl e, st') => (inl e, st')
            | (inr a, st') => k a st'
            end.
Definition raise {A} (e : exn) : M A := fun st => (inl e, st).
Definition lift {A} (r : exn + A) : M A := fun st => (r, st).
Definition gets {A} (f : pstate -> A) : M A := fun st => (inr (f st), st).
Definition modify (f : pstate -> pstate) : M unit := fun st => (inr tt, f st).

Notation "x <- m ;; k" := (bind m (fun x => k))
  (at level 61, m at next level, right associativity).
Notation "m ;;; k" := (bind m (fun _ => k))
  (at level 61, right associativity).

(** [[f(x) for x in l]], evaluated left to right. *)
Fixpoint map_exn {A B} (f : A -> exn + B) (l : list A) : exn + list B :=
  match l with
  | [] => inr []
  | x :: r =>
      match f x with
      | inl e => inl e
      | inr y => match map_exn f r with inl e => inl e | inr ys => inr (y :: ys) end
      end
  end.

Fixpoint iter_m {A} (f : A -> M unit) (l : list A) : M unit :=
  match l with
  | [] => ret tt
  | x :: r => f x ;;; iter_m f r
  end.

Definition sbind {A B} (r : exn + A) (k : A -> exn + B) : exn + B :=
  match r with inl e => inl e | inr a => k a end.
Notation "x <-? r ;; k" := (sbind r (fun x => k))
  (at level 61, r at next level, right associativity).

(* ------------------------------------------------------------------ *)
(** ** Row construction in [db_writer_thread]

    [now] is [time.strftime('%Y-%m-%d %H:%M:%S%z')] for the tick.  Tuple
    components are evaluated left to right, so the first failing
    subscript decides the exception. *)

Definition discovery_row (now : string) (d : json) : exn + row :=
  name <-? getitem d "name" ;;
  ip <-? get d "ip" JNull ;;
  mac <-? get d "mac" JNull ;;
  version <-? get d "version" JNull ;;
  platform <-? get d "platform" JNull ;;
  board <-? get d "board" JNull ;;
  network <-? get d "network" JNull ;;
  inr [CText now; to_cell name; to_cell ip; to_cell mac; to_cell version;
       to_cell platform; to_cell board; to_cell network; CJsonb d].

Definition entity_row (now : string) (e : json) : exn + row :=
  unique_id <-? getitem e "unique_id" ;;
  dev <-? getitem e "device" ;;
  ids <-? getitem dev "identifiers" ;;
  device_name <-? index0 ids ;;
  component <-? getitem e "component" ;;
  name <-? get e "name" (JStr "N/A") ;;
  state_topic <-? get e "state_topic" JNull ;;
  command_topic <-? get e "command_topic" JNull ;;
  inr [CText now; to_cell unique_id; to_cell device_name; to_cell component;
       to_cell name; to_cell state_topic; to_cell command_topic; CJsonb e].

(** [json.dumps({"topic": topic, "payload": payload})] *)
Definition raw_of (topic payload : string) : json :=
  JObj [("topic", JStr topic); ("payload", JStr payload)].

Definition status_row (now : string) (m : string * string) : row :=
  let '(topic, payload) := m in
  [CText now; CText (Py.first_segment topic); CText payload; CJsonb (raw_of topic payload)].

Definition state_row (now : string) (m : string * string) : row :=
  let '(topic, payload) := m in
  [CText now; CText topic; CText payload; CJsonb (raw_of topic payload)].

(** [f"esphome_{device_name.replace('-', '_')}"] with
    [device_name = topic.split('/')[0]]. *)
Definition table_name (topic : string) : string :=
  "esphome_" ++ Py.replace_dash (Py.first_segment topic).

(** [states_by_table[table_name].append(...)], the dict keeping the
    order in which table names were first seen. *)
Fixpoint add_to_group (tn : string) (r : row) (g : list (string * list row))
  : list (string * list row) :=
  match g with
  | [] => [(tn, [r])]
  | (n, rs) :: g' =>
      if String.eqb n tn then (n, rs ++ [r]) :: g' else (n, rs) :: add_to_group tn r g'
  end.

Definition states_by_table (now : string) (batch : list (string * string))
  : list (string * list row) :=
  fold_left (fun g m => add_to_group (table_name (fst m)) (state_row now m) g) batch [].

(** [psycopg2.extras.execute_values] sends its argument list in pages
    of [page_size=100] rows, one statement per page. *)
Fixpoint pages_aux (fuel : nat) (l : list row) : list (list row) :=
  match fuel with
  | 0 => []
  | S f => match l with [] => [] | _ => firstn 100 l :: pages_aux f (skipn 100 l) end
  end.

Definition pages (l : list row) : list (list row) := pages_aux (length l) l.

Definition append_five (b q : five) : five :=
  mkFive (f_discovery b ++ f_discovery q) (f_entity b ++ f_entity q)
         (f_status b ++ f_status q) (f_state b ++ f_state q) (f_command b ++ f_command q).

Definition clear_discovery (b : five) : five :=
  mkFive [] (f_entity b) (f_status b) (f_state b) (f_command b).
Definition clear_entity (b : five) : five :=
  mkFive (f_discovery b) [] (f_status b) (f_state b) (f_command b).
Definition clear_status (b : five) : five :=
  mkFive (f_discovery b) (f_entity b) [] (f_state b) (f_command b).
Definition clear_state (b : five) : five :=
  mkFive (f_discovery b) (f_entity b) (f_status b) [] (f_command b).

(* ------------------------------------------------------------------ *)
(** ** One iteration of the [db_writer_thread] loop

    [ok] is the environment: whether the server accepts a statement
    (network and server failures).  Semantic errors of the statement
    itself are decided by [apply_stmt]. *)

Section Writer.

Variable ok : stmt -> bool.
Variable now : string.

Definition exec (s : stmt) : M unit := fun st =>
  match conn st with
  | None => (inl DbError, st)
  | Some v =>
      if ok s then
        match apply_stmt s v with
        | Some v' => (inr tt, set_conn (Some v') st)
        | None => (inl DbError, st)
        end
      else (inl DbError, st)
  end.

(** [conn.commit()] *)
Definition commit : M unit := fun st =>
  match conn st with
  | None => (inl DbError, st)
  | Some v =>
      if ok SCommit then (inr tt, mkPState (Some v) v (queues st) (batches st))
      else (inl DbError, st)
  end.

(** [conn = psycopg2.connect(...)] *)
Definition connect : M unit := fun st =>
  if ok SConnect then (inr tt, set_conn (Some (server st)) st) else (inl DbError, st).

Definition setup_database_tables : M unit :=
  exec (SCreate "discovery_data" (Some 1)) ;;;
  exec (SCreate "entity" (Some 1)) ;;;
  exec (SCreate "device_status" None) ;;;
  exec (SCreate "command" None) ;;;
  commit.

Definition execute_values (mk : list row -> stmt) (rows : list row) : M unit :=
  iter_m (fun p => exec (mk p)) (pages rows).

(** [while not q.empty(): batch.append(q.get_nowait())] for the five queues. *)
Definition drain : M unit :=
  modify (fun st => mkPState (conn st) (server st) empty_five (append_five (batches st) (queues st))).

Definition write_discovery : M unit :=
  b <- gets (fun st => f_discovery (batches st)) ;;
  match b with
  | [] => ret tt
  | _ =>
      rows <- lift (map_exn (discovery_row now) b) ;;
      execute_values (SUpsert "discovery_data") rows ;;;
      modify (fun st => set_batches (clear_discovery (batches st)) st)
  end.

Definition write_entity : M unit :=
  b <- gets (fun st => f_entity (batches st)) ;;
  match b with
  | [] => ret tt
  | _ =>
      rows <- lift (map_exn (entity_row now) b) ;;
      execute_values (SUpsert "entity") rows ;;;
      modify (fun st => set_batches (clear_entity (batches st)) st)
  end.

Definition write_status : M unit :=
  b <- gets (fun st => f_status (batches st)) ;;
  match b with
  | [] => ret tt
  | _ =>
      execute_values (SInsert "device_status") (map (status_row now) b) ;;;
      modify (fun st => set_batches (clear_status (batches st)) st)
  end.

Definition write_state : M unit :=
  b <- gets (fun st => f_state (batches st)) ;;
  match b with
  | [] => ret tt
  | _ =>
      iter_m (fun g => exec (SCreate (fst g) None) ;;;
                       exec (SHyper (fst g)) ;;;
                       execute_values (SInsert (fst g)) (snd g))
             (states_by_table now b) ;;;
      modify (fun st => set_batches (clear_state (batches st)) st)
  end.

(** The body of the [try] block.  The command batch is drained like
    the others but no statement writes it. *)
Definition db_tick : M unit :=
  c <- gets conn ;;
  match c with
  | None => connect ;;; setup_database_tables
  | Some _ => ret tt
  end ;;;
  drain ;;;
  write_discovery ;;;
  write_entity ;;;
  write_status ;;;
  write_state ;;;
  commit.

End Writer.

Inductive outcome : Type :=
| Flushed                 (* the try block completed *)
| DbFailed                (* except psycopg2.Error: conn.close(); conn = None *)
| OtherFailed (e : exn).  (* except Exception: log only *)

(** One loop iteration with its two exception handlers (the sleeps are
    not modelled). *)
Definition loop_iter (ok : stmt -> bool) (now : string) (st : pstate) : pstate * outcome :=
  match db_tick ok now st with
  | (inr _, st') => (st', Flushed)
  | (inl DbError, st') => (set_conn None st', DbFailed)
  | (inl e, st') => (st', OtherFailed e)
  end.

(** Interleaving of the MQTT callback and the writer loop. *)
Inductive event : Type :=
| EMessage (topic payload : string)
| ETick (ok : stmt -> bool) (now : string).

Fixpoint run (json_loads : string -> loads_exn + json) (evs : list event) (st : pstate)
  : pstate * list outcome :=
  match evs with
  | [] => (st, [])
  | EMessage t p :: evs' =>
      let q := fst (on_mqtt_message json_loads t p (queues st)) in
      run json_loads evs' (mkPState (conn st) (server st) q (batches st))
  | ETick ok now :: evs' =>
      let '(st', o) := loop_iter ok now st in
      let '(st'', os) := run json_loads evs' st' in
      (st'', o :: os)
  end.

(* ------------------------------------------------------------------ *)
(** ** The [start] command

    What a Python statement of [start] does with respect to exceptions:
    completes, or raises [KeyboardInterrupt] or another exception. *)








(* ------------------------------------------------------------------ *)
(** ** [on_mqtt_connect] and the broker's topic filters *)

Inductive connect_log : Type :=
| ConnSubscribed   (* logger.info("Connected to MQTT Broker and subscribed to topics.") *)
| ConnFailed.      (* logger.error("Failed to connect to MQTT, return code ...") *)

(** The filters [on_mqtt_connect] subscribes to, in order, for the
    CONNACK return code [rc]. *)
Definition on_mqtt_connect (rc : nat) : list string * connect_log :=
  if Nat.eqb rc 0 then
    (["homeassistant/#"; "esphome/discover/#"; "+/status"; "+/+/+/state"; "+/+/+/command"],
     ConnSubscribed)
  else ([], ConnFailed).

(** Which published topics a subscription delivers (MQTT 3.1.1, 4.7):
    levels are separated by '/', '+' matches exactly one level, a final
    '#' matches the parent level and any number of levels below it, and
    a topic starting with '$' is not matched by a filter whose first
    level is a wildcard. *)
Fixpoint match_levels (f t : list string) : bool :=
  match f with
  | [] => match t with [] => true | _ :: _ => false end
  | x :: f' =>
      if String.eqb x "#" then true
      else match t with
           | [] => false
           | y :: t' => (String.eqb x "+" || String.eqb x y) && match_levels f' t'
           end
  end.

Definition mqtt_match (filter topic : string) : bool :=
  let fl := Py.split_slash filter in
  let wild_first :=
    match fl with x :: _ => String.eqb x "#" || String.eqb x "+" | [] => false end in
  if String.prefix "$" topic && wild_first then false
  else match_levels fl (Py.split_slash topic).

(* ------------------------------------------------------------------ *)
(** ** The [configure] wizard

    Each round of one of its [while True] loops is the configuration
    typed in, what the connection attempt of the test does, and the
    answer to "Do you want to try again?" (only asked after a failed
    test; an end of input there makes [typer.confirm] raise [Abort],
    which ends the wizard as "no" does).  Typing the configuration can
    itself fail: [typer.prompt] raises [Abort] on an end of input or
    Ctrl-C, and [getpass.getpass] raises [EOFError] or
    [KeyboardInterrupt]. *)

Inductive test_result : Type :=
| TestConnects        (* the connect call returns *)
| TestRaisesDbError   (* it raises a psycopg2.Error *)
| TestRaisesOther     (* it raises another Exception *)
| TestInterrupted.    (* it raises KeyboardInterrupt, not an Exception *)

(** [_test_db_connection]: only [psycopg2.Error] is caught; [None] is an
    exception propagating out of it. *)
Definition test_db_connection (r : test_result) : option bool :=
  match r with
  | TestConnects => Some true
  | TestRaisesDbError => Some false
  | TestRaisesOther | TestInterrupted => None
  end.

(** [_test_mqtt_connection]: every [Exception] is caught. *)
Definition test_mqtt_connection (r : test_result) : option bool :=
  match r with
  | TestConnects => Some true
  | TestRaisesDbError | TestRaisesOther => Some false
  | TestInterrupted => None
  end.

Inductive wizard_round (A : Type) : Type :=
| Round (cfg : A) (r : test_result) (again : bool)
| PromptAborts        (* a typer.prompt raises Abort *)
| PasswordRaises.     (* getpass.getpass raises EOFError or KeyboardInterrupt *)
Arguments Round {A} cfg r again.
Arguments PromptAborts {A}.
Arguments PasswordRaises {A}.

Inductive wizard_step (A : Type) : Type :=
| StepDone (cfg : A)   (* break, with the configuration just tested *)
| StepAbort            (* typer.Abort *)
| StepRaised           (* another exception propagated *)
| StepNoInput.         (* the rounds typed in run out *)
Arguments StepDone {A} cfg.
Arguments StepAbort {A}.
Arguments StepRaised {A}.
Arguments StepNoInput {A}.

(** One [while True] loop of the wizard, with its connection test. *)
Fixpoint wizard_loop {A} (test : test_result -> option bool) (rounds : list (wizard_round A))
  : wizard_step A :=
  match rounds with
  | [] => StepNoInput
  | PromptAborts :: _ => StepAbort
  | PasswordRaises :: _ => StepRaised
  | Round cfg r again :: rest =>
      match test r with
      | None => StepRaised
      | Some true => StepDone cfg
      | Some false => if again then wizard_loop test rest else StepAbort
      end
  end.

Inductive configure_outcome (A B : Type) : Type :=
| ConfigSaved (db_config : A) (mqtt_config : B)  (* json.dump({"database": ..., "mqtt": ...}) *)
| ConfigAborted
| ConfigRaised
| ConfigNoInput.
Arguments ConfigSaved {A B} db_config mqtt_config.
Arguments ConfigAborted {A B}.
Arguments ConfigRaised {A B}.
Arguments ConfigNoInput {A B}.

(** [save_ok] is whether [config_path.parent.mkdir], [open] and
    [json.dump] complete; [false]: one of them raises (an [OSError]). *)
Definition configure {A B} (db_rounds : list (wizard_round A))
  (mqtt_rounds : list (wizard_round B)) (save_ok : bool) : configure_outcome A B :=
  match wizard_loop test_db_connection db_rounds with
  | StepDone d =>
      match wizard_loop test_mqtt_connection mqtt_rounds with
      | StepDone m => if save_ok then ConfigSaved d m else ConfigRaised
      | StepAbort => ConfigAborted
      | StepRaised => ConfigRaised
      | StepNoInput => ConfigNoInput
      end
  | StepAbort => ConfigAborted
  | StepRaised => ConfigRaised
  | StepNoInput => ConfigNoInput
  end.

(* ------------------------------------------------------------------ *)
(** ** Auxiliary notions used by the properties *)

(** A string without '/': one topic level. *)
Fixpoint no_slash (s : string) : bool :=
  match s with
  | EmptyString => true
  | String c s' => negb (Ascii.eqb c "/"%char) && no_slash s'
  end.

(** [states_by_table.get(tn, [])] *)
Definition group_rows (tn : string) (g : list (string * list row)) : list row :=
  match find (fun p => String.eqb (fst p) tn) g with Some p => snd p | None => [] end.

(** The discovery item [d] is still waiting, in the queue or the batch. *)
Definition discovery_pending (d : json) (st : pstate) : Prop :=
  In d (f_discovery (queues st) ++ f_discovery (batches st)).

(** The four tables [setup_database_tables] creates. *)
Definition fixed_tables : list string := ["discovery_data"; "entity"; "device_status"; "command"].

(** Two databases holding the same rows and hypertable flags in every table. *)
Definition same_tables (v w : db) : Prop :=
  forall n, rows_of n v = rows_of n w /\ is_hypertable n v = is_hypertable n w.

(** A failing [m] leaves the committed database as it was. *)
Definition fails_keep_server {A} (m : M A) : Prop :=
  forall s e s', m s = (inl e, s') -> server s' = server s.

(** The queues and the batches are [Q] and [B]. *)
Definition qb_is (Q B : five) (s : pstate) : Prop := queues s = Q /\ batches s = B.

(* ------------------------------------------------------------------ *)
(** ** Concrete inputs used by the examples below *)

Module Inputs.

(** A server that accepts every statement. *)
Definition all_ok : stmt -> bool := fun _ => true.

(** A server that fails the upsert into [entity] (an outage in the
    middle of the tick). *)
Definition entity_write_fails : stmt -> bool := fun s =>
  match s with
  | SUpsert n _ => negb (String.eqb n "entity")
  | _ => true
  end.

(** Freshly started writer thread: no connection, empty database. *)
Definition fresh (q : five) : pstate := mkPState None [] q empty_five.

(** A few payloads as [json.loads] returns them. *)
Definition disc1 : json := JObj [("name", JStr "dev1"); ("ip", JStr "192.168.1.50")].
Definition disc1' : json := JObj [("name", JStr "dev1"); ("ip", JStr "192.168.1.51")].
Definition ent1 : json :=
  JObj [("unique_id", JStr "dev1_light"); ("device", JObj [("identifiers", JArr [JStr "dev1"])]);
        ("component", JStr "light")].
(** Entity config with the nested identifiers but without [unique_id]. *)
Definition ent_no_uid : json :=
  JObj [("device", JObj [("identifiers", JArr [JStr "dev1"])])].

Definition dq : string := String (ascii_of_nat 34) EmptyString.
Definition quoted (s : string) : string := dq ++ s ++ dq.

(** The texts [{"device": {"identifiers": ["dev1"]}}] and [{"name": "dev1"}]. *)
Definition ent_no_uid_text : string :=
  "{" ++ quoted "device" ++ ": {" ++ quoted "identifiers" ++ ": [" ++ quoted "dev1" ++ "]}}".
Definition disc_name_text : string := "{" ++ quoted "name" ++ ": " ++ quoted "dev1" ++ "}".

(** [n] opening brackets followed by [n] closing ones. *)
Fixpoint nested (n : nat) : string :=
  match n with 0 => EmptyString | S m => "[" ++ nested m ++ "]" end.

(** An array nested 5000 levels deep, beyond the default recursion
    limit (1000) of the JSON decoder. *)
Definition deep_text : string := nested 5000.

(** [json.loads] on the handful of texts used here. *)
Definition loads (s : string) : loads_exn + json :=
  if String.eqb s ent_no_uid_text then inr ent_no_uid
  else if String.eqb s disc_name_text then inr (JObj [("name", JStr "dev1")])
  else if String.eqb s deep_text then inl RecursionError
  else inl JSONDecodeError.

(** The database right after [setup_database_tables]. *)
Definition provisioned : db :=
  [("discovery_data", mkTable (Some 1) [] false); ("entity", mkTable (Some 1) [] false);
   ("device_status", mkTable None [] false); ("command", mkTable None [] false)].

(** The single byte 0xFF, never valid UTF-8. *)
Definition bad_utf8 : string := String (ascii_of_nat 255) EmptyString.

(** A server that refuses the connection. *)
Definition refuses_connect : stmt -> bool := fun s =>
  match s with SConnect => false | _ => true end.

(** A discovery payload without [name]. *)
Definition disc_no_name : json := JObj [("ip", JStr "192.168.1.50")].


End Inputs.

(* ================================================================== *)
(** * Properties *)

Import Inputs.

(** ** Message callback *)

(** C10: a payload that is not valid UTF-8 is discarded before any
    routing rule is looked at: no queue changes, whatever the topic. *)
Theorem on_message_invalid_utf8_enqueues_nothing :
  forall (json_loads : string -> loads_exn + json) (topic payload : string) (q : five),
    Utf8.decode payload = None ->
    on_mqtt_message json_loads topic payload q = (q, LogError).
Proof.
  intros json_loads topic payload q Hdec.
  unfold on_mqtt_message. rewrite Hdec. reflexivity.
Qed.

Lemma on_message_invalid_utf8_enqueues_nothing_witness :
  Utf8.decode bad_utf8 = None /\
  on_mqtt_message loads "dev1/sensor/temp/state" bad_utf8 empty_five = (empty_five, LogError).
Proof.
  split.
  - vm_compute. reflexivity.
  - apply on_message_invalid_utf8_enqueues_nothing. vm_compute. reflexivity.
Defined.

(** C7 (as stated): a payload on a discovery-announcement topic that is
    not JSON text (here the byte 0xFF, not even UTF-8) is discarded with
    the generic error log, not the JSON decode warning. *)
Lemma discovery_non_utf8_logs_error_not_warning :
  on_mqtt_message loads "esphome/discover/dev1" bad_utf8 empty_five = (empty_five, LogError) /\
  snd (on_mqtt_message loads "esphome/discover/dev1" bad_utf8 empty_five) <> LogJsonWarning.
Proof.
  split.
  - vm_compute. reflexivity.
  - vm_compute. discriminate.
Qed.

(** C7 (amended): on a topic containing [esphome/discover] the
    discovery rule decides alone, whatever the topic's suffix: a UTF-8
    payload that parses becomes a discovery item and nothing else; one
    on which [json.loads] raises [json.JSONDecodeError] is dropped with
    the decode warning; one on which it raises another exception
    ([RecursionError], [ValueError]) is dropped with the generic error
    log, as is a payload that is not UTF-8. *)
Theorem discovery_rule_first_match :
  forall (json_loads : string -> loads_exn + json) (topic payload : string) (q : five),
    Py.contains "esphome/discover" topic = true ->
    on_mqtt_message json_loads topic payload q =
      match Utf8.decode payload with
      | None => (q, LogError)
      | Some s =>
          match json_loads s with
          | inr d => (push_discovery d q, LogNothing)
          | inl JSONDecodeError => (q, LogJsonWarning)
          | inl _ => (q, LogError)
          end
      end.
Proof.
  intros json_loads topic payload q Htop.
  unfold on_mqtt_message.
  destruct (Utf8.decode payload) as [s|]; [rewrite Htop|]; reflexivity.
Qed.

Lemma discovery_rule_first_match_witness :
  Py.contains "esphome/discover" "esphome/discover/dev1/status" = true /\
  on_mqtt_message loads "esphome/discover/dev1/status" disc_name_text empty_five =
    (push_discovery (JObj [("name", JStr "dev1")]) empty_five, LogNothing) /\
  on_mqtt_message loads "esphome/discover/dev1" deep_text empty_five = (empty_five, LogError).
Proof.
  split; [vm_compute; reflexivity|]. split.
  - rewrite (discovery_rule_first_match loads "esphome/discover/dev1/status" disc_name_text
               empty_five (eq_refl true)).
    vm_compute. reflexivity.
  - rewrite (discovery_rule_first_match loads "esphome/discover/dev1" deep_text
               empty_five (eq_refl true)).
    vm_compute. reflexivity.
Defined.

(** ** The [start] command *)






(** ** The flush cycle on concrete runs *)

(** C1: the discovery batch is cleared right after its upsert, before
    [conn.commit()].  When the entity upsert then fails, the handler
    closes the connection and the transaction is rolled back, but the
    discovery batch stays cleared: the next successful tick writes the
    entity and never the discovery message. *)
Theorem flush_failure_after_discovery_loses_it :
  let st0 := mkPState (Some provisioned) provisioned (mkFive [disc1] [ent1] [] [] []) empty_five in
  let r1 := loop_iter entity_write_fails "t1" st0 in
  let r2 := loop_iter all_ok "t2" (fst r1) in
  snd r1 = DbFailed /\
  f_discovery (batches (fst r1)) = [] /\
  f_entity (batches (fst r1)) = [ent1] /\
  rows_of "discovery_data" (server (fst r1)) = [] /\
  snd r2 = Flushed /\
  rows_of "discovery_data" (server (fst r2)) = [] /\
  length (rows_of "entity" (server (fst r2))) = 1.
Proof. vm_compute. repeat split. Qed.

(** C2: a command message is drained into the command batch, but no
    statement ever writes that batch: after two successful ticks the
    [command] table is still empty and the message is still held. *)
Theorem command_batch_never_written :
  let r := run loads [EMessage "mydevice/light/bulb/command" "TOGGLE";
                      ETick all_ok "t1"; ETick all_ok "t2"] (fresh empty_five) in
  snd r = [Flushed; Flushed] /\
  rows_of "command" (server (fst r)) = [] /\
  f_command (batches (fst r)) = [("mydevice/light/bulb/command", "TOGGLE")].
Proof. vm_compute. repeat split. Qed.

(** C6: two discovery messages for the same device drained in the same
    tick go into one [INSERT ... ON CONFLICT DO UPDATE] statement, which
    the server refuses; the batch is kept and refused again on every
    tick, so no row for the device is ever stored. *)
Theorem same_tick_duplicate_discovery_never_stored :
  let r := run loads [ETick all_ok "t1"; ETick all_ok "t2"; ETick all_ok "t3"]
               (fresh (mkFive [disc1; disc1'] [] [] [] [])) in
  snd r = [DbFailed; DbFailed; DbFailed] /\
  rows_of "discovery_data" (server (fst r)) = [] /\
  f_discovery (batches (fst r)) = [disc1; disc1'].
Proof. vm_compute. repeat split. Qed.

(** C3: no state payload is coerced.  The end-to-end run of "ON" on
    [kitchen/switch/fan/state] stores the text "ON" in the value
    column of [esphome_kitchen], not the number 1.0. *)
Lemma kitchen_on_stored_as_text :
  let r := run loads [EMessage "kitchen/switch/fan/state" "ON"; ETick all_ok "t1"]
               (fresh empty_five) in
  rows_of "esphome_kitchen" (server (fst r)) =
    [[CText "t1"; CText "kitchen/switch/fan/state"; CText "ON";
      CJsonb (raw_of "kitchen/switch/fan/state" "ON")]] /\
  ~ (exists rw, In rw (rows_of "esphome_kitchen" (server (fst r))) /\
                key_of 2 rw = CPy (JNum "1.0")).
Proof.
  vm_compute. split; [reflexivity|].
  intros [rw [[<- | []] Hv]]. discriminate Hv.
Qed.

(** C8 (as stated): only '-' is replaced; a device named [my.dev] gets
    the table name [esphome_my.dev], which keeps the '.'. *)
Lemma table_name_keeps_dot :
  table_name "my.dev/sensor/temp/state" = "esphome_my.dev" /\
  Py.contains "." (table_name "my.dev/sensor/temp/state") = true.
Proof. vm_compute. split; reflexivity. Qed.

(* ------------------------------------------------------------------ *)
(** ** Reasoning principles for the writer's monad *)

Lemma bind_inv {A B} (m : M A) (k : A -> M B) st r st' :
  bind m k st = (r, st') ->
  (exists e, m st = (inl e, st') /\ r = inl e) \/
  (exists a s1, m st = (inr a, s1) /\ k a s1 = (r, st')).
Proof.
  unfold bind. destruct (m st) as [[e|a] s1]; intros H.
  - left. inversion H; subst. eauto.
  - right. eauto.
Qed.

Ltac inv_bind H :=
  apply bind_inv in H;
  destruct H as [(?e & ?Hm & ?Hr) | (?a & ?s & ?Hm & ?Hk)].

(** [m] preserves [P] on every path, normal or exceptional. *)
Definition keeps {A} (P : pstate -> Prop) (m : M A) : Prop :=
  forall st r st', m st = (r, st') -> P st -> P st'.

Lemma keeps_bind {A B} P (m : M A) (k : A -> M B) :
  keeps P m -> (forall a, keeps P (k a)) -> keeps P (bind m k).
Proof.
  intros Hm Hk st r st' H HP. inv_bind H.
  - exact (Hm _ _ _ Hm0 HP).
  - exact (Hk _ _ _ _ Hk0 (Hm _ _ _ Hm0 HP)).
Qed.

Lemma keeps_ret {A} P (a : A) : keeps P (ret a).
Proof. intros st r st' H HP. inversion H; subst. exact HP. Qed.

Lemma keeps_gets {A} P (f : pstate -> A) : keeps P (gets f).
Proof. intros st r st' H HP. inversion H; subst. exact HP. Qed.

Lemma keeps_lift {A} P (x : exn + A) : keeps P (lift x).
Proof. intros st r st' H HP. inversion H; subst. exact HP. Qed.

Lemma keeps_modify P f : (forall st, P st -> P (f st)) -> keeps P (modify f).
Proof. intros Hf st r st' H HP. inversion H; subst. auto. Qed.

Lemma keeps_iter_m {A} P (f : A -> M unit) (l : list A) :
  (forall x, keeps P (f x)) -> keeps P (iter_m f l).
Proof.
  intros Hf. induction l as [|x l IH]; simpl.
  - apply keeps_ret.
  - apply keeps_bind; [apply Hf | intros _; exact IH].
Qed.

(** Properties that only look at the queues and batches are kept by
    every database operation. *)
Definition db_blind (P : pstate -> Prop) : Prop :=
  forall st c sv, P st -> P (mkPState c sv (queues st) (batches st)).

Section DbBlind.

Variable P : pstate -> Prop.
Hypothesis HP : db_blind P.
Variable ok : stmt -> bool.

Lemma keeps_exec_blind s : keeps P (exec ok s).
Proof.
  intros st r st' H Hst. unfold exec in H.
  destruct (conn st) as [v|]; [destruct (ok s); [destruct (apply_stmt s v)|]|];
    inversion H; subst; try exact Hst; apply HP; exact Hst.
Qed.

Lemma keeps_commit_blind : keeps P (commit ok).
Proof.
  intros st r st' H Hst. unfold commit in H.
  destruct (conn st) as [v|]; [destruct (ok SCommit)|]; inversion H; subst;
    try exact Hst; apply HP; exact Hst.
Qed.

Lemma keeps_connect_blind : keeps P (connect ok).
Proof.
  intros st r st' H Hst. unfold connect in H.
  destruct (ok SConnect); inversion H; subst; [apply HP|]; exact Hst.
Qed.

Lemma keeps_setup_blind : keeps P (setup_database_tables ok).
Proof.
  unfold setup_database_tables.
  repeat (apply keeps_bind; [apply keeps_exec_blind | intros _]).
  apply keeps_commit_blind.
Qed.

End DbBlind.

(** The four write steps keep any property that every statement keeps
    and that survives clearing the step's own batch. *)
Section WriteSteps.

Variable ok : stmt -> bool.
Variable now : string.
Variable P : pstate -> Prop.
Hypothesis Hexec : forall s, keeps P (exec ok s).

Lemma keeps_execute_values mk rows : keeps P (execute_values ok mk rows).
Proof. apply keeps_iter_m. intros p. apply Hexec. Qed.

Lemma keeps_write_discovery :
  (forall st, P st -> P (set_batches (clear_discovery (batches st)) st)) ->
  keeps P (write_discovery ok now).
Proof.
  intros Hc. unfold write_discovery.
  apply keeps_bind; [apply keeps_gets|intros [|x l]]; [apply keeps_ret|].
  apply keeps_bind; [apply keeps_lift|intros rows].
  apply keeps_bind; [apply keeps_execute_values|intros _].
  apply keeps_modify. exact Hc.
Qed.

Lemma keeps_write_entity :
  (forall st, P st -> P (set_batches (clear_entity (batches st)) st)) ->
  keeps P (write_entity ok now).
Proof.
  intros Hc. unfold write_entity.
  apply keeps_bind; [apply keeps_gets|intros [|x l]]; [apply keeps_ret|].
  apply keeps_bind; [apply keeps_lift|intros rows].
  apply keeps_bind; [apply keeps_execute_values|intros _].
  apply keeps_modify. exact Hc.
Qed.

Lemma keeps_write_status :
  (forall st, P st -> P (set_batches (clear_status (batches st)) st)) ->
  keeps P (write_status ok now).
Proof.
  intros Hc. unfold write_status.
  apply keeps_bind; [apply keeps_gets|intros [|x l]]; [apply keeps_ret|].
  apply keeps_bind; [apply keeps_execute_values|intros _].
  apply keeps_modify. exact Hc.
Qed.

Lemma keeps_write_state :
  (forall st, P st -> P (set_batches (clear_state (batches st)) st)) ->
  keeps P (write_state ok now).
Proof.
  intros Hc. unfold write_state.
  apply keeps_bind; [apply keeps_gets|intros [|x l]]; [apply keeps_ret|].
  apply keeps_bind; [|intros _; apply keeps_modify; exact Hc].
  apply keeps_iter_m. intros g.
  apply keeps_bind; [apply Hexec|intros _].
  apply keeps_bind; [apply Hexec|intros _].
  apply keeps_execute_values.
Qed.

End WriteSteps.

(** An open connection stays open through every step after the
    connection phase, on normal and exceptional paths alike. *)
Definition conn_open (st : pstate) : Prop := conn st <> None.

Section ConnOpen.

Variable ok : stmt -> bool.
Variable now : string.

Lemma keeps_exec_open s : keeps conn_open (exec ok s).
Proof.
  intros st r st' H Hst. unfold exec in H.
  destruct (conn st) as [v|] eqn:Hc; [destruct (ok s); [destruct (apply_stmt s v)|]|];
    inversion H; subst; try exact Hst; unfold conn_open; simpl; discriminate.
Qed.



(** The connection phase raises nothing but database errors. *)
Lemma connect_phase_db_errors_only st e st' :
  (connect ok ;;; setup_database_tables ok) st = (inl e, st') -> e = DbError.
Proof.
  intros H. inv_bind H.
  - injection Hr as ->. unfold connect in Hm.
    destruct (ok SConnect); inversion Hm; reflexivity.
  - unfold setup_database_tables in Hk.
    assert (Hex : forall s st1 e1 st2, exec ok s st1 = (inl e1, st2) -> e1 = DbError).
    { intros s0 st1 e1 st2 He. unfold exec in He.
      destruct (conn st1) as [v|]; [destruct (ok s0); [destruct (apply_stmt s0 v)|]|];
        inversion He; reflexivity. }
    repeat (inv_bind Hk; [injection Hr as ->; eapply Hex; eassumption|]).
    match type of Hk with
    | commit ok ?x = _ =>
        unfold commit in Hk; destruct (conn x) as [v|]; [destruct (ok SCommit)|];
        inversion Hk; reflexivity
    end.
Qed.

Lemma connect_phase_opens st st' :
  (connect ok ;;; setup_database_tables ok) st = (inr tt, st') -> conn_open st'.
Proof.
  intros H. inv_bind H; [discriminate|].
  unfold setup_database_tables in Hk.
  repeat (inv_bind Hk; [discriminate|]).
  match type of Hk with
  | commit ok ?x = _ =>
      unfold commit in Hk; destruct (conn x) as [v|]; [destruct (ok SCommit)|];
      inversion Hk; subst; unfold conn_open; simpl; discriminate
  end.
Qed.

End ConnOpen.




(* ------------------------------------------------------------------ *)
(** ** What the flush steps do to the queues and batches *)

Lemma map_exn_fails {A B} (f : A -> exn + B) (l : list A) x e :
  In x l -> f x = inl e -> exists e', map_exn f l = inl e'.
Proof.
  induction l as [|y l IH]; simpl; intros Hin Hf; [contradiction|].
  destruct Hin as [<- | Hin].
  - rewrite Hf. eauto.
  - destruct (f y) as [e1|y']; [eauto|].
    destruct (IH Hin Hf) as [e' He']. rewrite He'. eauto.
Qed.

Section Steps.

Variable ok : stmt -> bool.
Variable now : string.

Lemma write_entity_blocked st e err :
  In e (f_entity (batches st)) -> entity_row now e = inl err ->
  exists err', write_entity ok now st = (inl err', st).
Proof.
  intros Hin Hrow. unfold write_entity, bind, gets.
  destruct (f_entity (batches st)) as [|x l] eqn:Hb; [contradiction|].
  destruct (map_exn_fails (entity_row now) (x :: l) e err Hin Hrow) as [err' Herr].
  exists err'. unfold lift. rewrite Herr. reflexivity.
Qed.

End Steps.

(** The entity item [e] is still waiting, in the queue or the batch. *)
Definition entity_pending (e : json) (st : pstate) : Prop :=
  In e (f_entity (queues st) ++ f_entity (batches st)).

Lemma db_tick_blocked_by_entity ok now st r st' e err :
  entity_row now e = inl err ->
  entity_pending e st ->
  db_tick ok now st = (r, st') ->
  entity_pending e st' /\ (forall u, r <> inr u).
Proof.
  intros Hrow Hpend H. unfold db_tick in H.
  inv_bind H; [discriminate|].
  unfold gets in Hm. injection Hm as Ha Hs. subst a s.
  assert (Hbl : db_blind (entity_pending e)) by (intros s0 c sv Hs0; exact Hs0).
  apply bind_inv in Hk. destruct Hk as [(e1 & Hph & He1) | (u & s2 & Hph & Hrest)].
  - split; [|subst r; discriminate].
    destruct (conn st).
    + inversion Hph.
    + refine (keeps_bind _ _ _ (keeps_connect_blind _ Hbl ok)
                (fun _ => keeps_setup_blind _ Hbl ok) _ _ _ Hph Hpend).
  - assert (Hp2 : entity_pending e s2).
    { destruct (conn st).
      + inversion Hph; subst. exact Hpend.
      + refine (keeps_bind _ _ _ (keeps_connect_blind _ Hbl ok)
                  (fun _ => keeps_setup_blind _ Hbl ok) _ _ _ Hph Hpend). }
    (* drain *)
    apply bind_inv in Hrest. destruct Hrest as [(e2 & Hd & _) | (u2 & s3 & Hd & Hrest)];
      [discriminate|].
    unfold drain, modify in Hd. injection Hd as _ Hs3. subst s3.
    set (s3 := mkPState (conn s2) (server s2) empty_five (append_five (batches s2) (queues s2))) in *.
    assert (Hb3 : In e (f_entity (batches s3))).
    { unfold entity_pending in Hp2. simpl. apply in_app_iff in Hp2. apply in_app_iff. tauto. }
    set (Pb := fun st0 => In e (f_entity (batches st0))).
    assert (HPb : db_blind Pb) by (intros s0 c sv Hs0; exact Hs0).
    (* write_discovery *)
    apply bind_inv in Hrest. destruct Hrest as [(e3 & Hw & He3) | (u3 & s4 & Hw & Hrest)].
    + split; [|subst r; discriminate].
      assert (Hb' : Pb st').
      { refine (keeps_write_discovery ok now Pb (keeps_exec_blind Pb HPb ok) _ _ _ _ Hw Hb3).
        intros s0 Hs0. exact Hs0. }
      unfold entity_pending. apply in_app_iff. right. exact Hb'.
    + assert (Hb4 : Pb s4).
      { refine (keeps_write_discovery ok now Pb (keeps_exec_blind Pb HPb ok) _ _ _ _ Hw Hb3).
        intros s0 Hs0. exact Hs0. }
      (* write_entity raises *)
      destruct (write_entity_blocked ok now s4 e err Hb4 Hrow) as [err' Hwe].
      unfold bind at 1 in Hrest. rewrite Hwe in Hrest. injection Hrest as Hr Hs'. subst r st'.
      split; [|discriminate].
      unfold entity_pending. apply in_app_iff. right. exact Hb4.
Qed.

(** The callback only appends to the entity queue. *)
Lemma on_message_entity_appends json_loads t p q :
  exists l, f_entity (fst (on_mqtt_message json_loads t p q)) = f_entity q ++ l.
Proof.
  unfold on_mqtt_message.
  repeat match goal with
         | |- context [match ?x with _ => _ end] => destruct x
         | |- context [if ?b then _ else _] => destruct b
         end; simpl;
    first [exists []; rewrite app_nil_r; reflexivity | eexists; reflexivity].
Qed.

Lemma run_blocked_by_entity json_loads e :
  (forall now, exists err, entity_row now e = inl err) ->
  forall evs st, entity_pending e st ->
    entity_pending e (fst (run json_loads evs st)) /\ ~ In Flushed (snd (run json_loads evs st)).
Proof.
  intros Hrow evs. induction evs as [|ev evs IH]; intros st Hp; simpl.
  - split; [exact Hp | tauto].
  - destruct ev as [t p | ok now].
    + apply IH. unfold entity_pending in *. simpl.
      destruct (on_message_entity_appends json_loads t p (queues st)) as [l Hl].
      rewrite Hl. apply in_app_iff in Hp. apply in_app_iff.
      destruct Hp as [Hp|Hp]; [left; apply in_app_iff; left; exact Hp | right; exact Hp].
    + destruct (Hrow now) as [err Herr].
      destruct (loop_iter ok now st) as [st1 o] eqn:Hl.
      assert (Hst1 : entity_pending e st1 /\ o <> Flushed).
      { unfold loop_iter in Hl.
        destruct (db_tick ok now st) as [r s1] eqn:Ht.
        destruct (db_tick_blocked_by_entity ok now st r s1 e err Herr Hp Ht) as [Hs1 Hr].
        destruct r as [[]|u]; try (exfalso; exact (Hr u eq_refl));
          injection Hl as <- <-; split; try exact Hs1; discriminate. }
      destruct Hst1 as [Hst1 Ho].
      destruct (run json_loads evs st1) as [st2 os] eqn:Hrun.
      destruct (IH st1 Hst1) as [IH1 IH2]. rewrite Hrun in IH1, IH2.
      simpl. split; [exact IH1|]. intros [Hf|Hf]; [exact (Ho Hf) | exact (IH2 Hf)].
Qed.

(** C9: classification of an entity config only checks
    [device.identifiers]; one without [unique_id] is queued, its row
    construction raises [KeyError] ([name] of a discovery payload is
    likewise never checked), and from then on the message stays in the
    entity queue or batch and no tick of any run completes. *)
Theorem entity_config_accepted_but_never_flushed :
  forall (json_loads : string -> loads_exn + json) (topic payload : string) (e dev : json),
    Utf8.decode payload = Some payload ->
    Py.contains "esphome/discover" topic = false ->
    Py.contains "homeassistant" topic = true ->
    Py.endswith "/config" topic = true ->
    json_loads payload = inr e ->
    contains_key "device" e = inr true ->
    getitem e "device" = inr dev ->
    contains_key "identifiers" dev = inr true ->
    getitem e "unique_id" = inl KeyError ->
    (forall q, on_mqtt_message json_loads topic payload q = (push_entity e q, LogNothing)) /\
    (forall now, entity_row now e = inl KeyError) /\
    (forall now d, getitem d "name" = inl KeyError -> discovery_row now d = inl KeyError) /\
    (forall evs st, entity_pending e st ->
       entity_pending e (fst (run json_loads evs st)) /\
       ~ In Flushed (snd (run json_loads evs st))).
Proof.
  intros json_loads topic payload e dev Hdec Hdisc Hha Hcfg Hjson Hdev Hget Hids Huid.
  assert (Hrow : forall now, entity_row now e = inl KeyError).
  { intros now. unfold entity_row. rewrite Huid. reflexivity. }
  split; [|split; [exact Hrow|split]].
  - intros q. unfold on_mqtt_message.
    rewrite Hdec, Hdisc, Hha, Hcfg. simpl. rewrite Hjson, Hdev, Hget, Hids. reflexivity.
  - intros now d Hd. unfold discovery_row. rewrite Hd. reflexivity.
  - apply run_blocked_by_entity. intros now. exists KeyError. apply Hrow.
Qed.

(* ------------------------------------------------------------------ *)
(** ** Tables only grow under CREATE, create_hypertable and INSERT *)

Lemma db_lookup_app n v w :
  db_lookup n (v ++ w) = match db_lookup n v with Some t => Some t | None => db_lookup n w end.
Proof.
  induction v as [|[n' t'] v IH]; simpl; [reflexivity|].
  destruct (String.eqb n n'); [reflexivity|exact IH].
Qed.

Lemma db_lookup_update m n t v :
  db_lookup m (db_update n t v) =
  if String.eqb m n then match db_lookup n v with Some _ => Some t | None => None end
  else db_lookup m v.
Proof.
  induction v as [|[n' t'] v IH]; simpl.
  - destruct (String.eqb m n); reflexivity.
  - destruct (String.eqb_spec n n') as [<-|Hnn'].
    + simpl. destruct (String.eqb m n); reflexivity.
    + simpl. rewrite IH.
      destruct (String.eqb_spec m n'); destruct (String.eqb_spec m n); subst;
        try reflexivity; congruence.
Qed.

Lemma insert_rows_app key rows ex out :
  insert_rows key rows ex = Some out -> out = ex ++ rows.
Proof.
  revert ex. induction rows as [|r rows IH]; intros ex H; simpl in H.
  - injection H as <-. rewrite app_nil_r. reflexivity.
  - destruct key as [k|].
    + destruct (cell_eqb (key_of k r) CNull || has_key k (key_of k r) ex); [discriminate|].
      rewrite (IH _ H), <- app_assoc. reflexivity.
    + rewrite (IH _ H), <- app_assoc. reflexivity.
Qed.

Definition grows (v v' : db) : Prop :=
  forall n, incl (rows_of n v) (rows_of n v') /\
            (is_hypertable n v = true -> is_hypertable n v' = true).

Lemma grows_refl v : grows v v.
Proof. intros n. split; [apply incl_refl | tauto]. Qed.

Lemma grows_trans v1 v2 v3 : grows v1 v2 -> grows v2 v3 -> grows v1 v3.
Proof.
  intros H12 H23 n. destruct (H12 n) as [A B]. destruct (H23 n) as [C D].
  split; [eapply incl_tran; eassumption | tauto].
Qed.

(** Replacing a table by one with more rows and no fewer flags. *)
Lemma grows_update n t t' v :
  db_lookup n v = Some t ->
  incl (trows t) (trows t') -> (thyper t = true -> thyper t' = true) ->
  grows v (db_update n t' v).
Proof.
  intros Hl Hr Hh m. unfold rows_of, is_hypertable. rewrite db_lookup_update.
  destruct (String.eqb_spec m n) as [->|Hmn].
  - rewrite Hl. split; assumption.
  - split; [apply incl_refl | tauto].
Qed.

Lemma apply_create_grows n k v v' :
  apply_stmt (SCreate n k) v = Some v' -> grows v v'.
Proof.
  simpl. destruct (db_lookup n v) as [t|] eqn:Hl; intros H; injection H as <-.
  - apply grows_refl.
  - intros m. unfold rows_of, is_hypertable. rewrite db_lookup_app.
    destruct (db_lookup m v) as [tm|] eqn:Hm.
    + split; [apply incl_refl | tauto].
    + split; [intros x [] | discriminate].
Qed.

Lemma apply_hyper_effect n v v' :
  apply_stmt (SHyper n) v = Some v' -> grows v v' /\ is_hypertable n v' = true.
Proof.
  simpl. destruct (db_lookup n v) as [t|] eqn:Hl; [|discriminate].
  destruct (thyper t) eqn:Hh.
  - intros H. injection H as <-. split; [apply grows_refl|].
    unfold is_hypertable. rewrite Hl. exact Hh.
  - destruct (trows t) as [|r rs] eqn:Hr; [|discriminate].
    intros H. injection H as <-. split.
    + apply grows_update with t; simpl; [exact Hl | rewrite Hr; apply incl_refl | intros _; reflexivity].
    + unfold is_hypertable. rewrite db_lookup_update, String.eqb_refl, Hl. reflexivity.
Qed.

Lemma apply_insert_effect n rows v v' :
  apply_stmt (SInsert n rows) v = Some v' -> grows v v' /\ incl rows (rows_of n v').
Proof.
  simpl. destruct (db_lookup n v) as [t|] eqn:Hl; [|discriminate].
  destruct (insert_rows (tkey t) rows (trows t)) as [rs|] eqn:Hi; [|discriminate].
  apply insert_rows_app in Hi. subst rs.
  intros H. injection H as <-. split.
  - apply grows_update with t; simpl; [exact Hl | apply incl_appl, incl_refl | tauto].
  - unfold rows_of. rewrite db_lookup_update, String.eqb_refl, Hl. simpl.
    apply incl_appr, incl_refl.
Qed.

Lemma exec_inr ok s st st' :
  exec ok s st = (inr tt, st') ->
  exists v v', conn st = Some v /\ apply_stmt s v = Some v' /\ st' = set_conn (Some v') st.
Proof.
  unfold exec. destruct (conn st) as [v|]; [|discriminate].
  destruct (ok s); [|discriminate].
  destruct (apply_stmt s v) as [v'|] eqn:Ha; [|discriminate].
  intros H. injection H as <-. exists v, v'. auto.
Qed.

Lemma pages_aux_concat fuel l :
  length l <= fuel -> concat (pages_aux fuel l) = l.
Proof.
  revert l. induction fuel as [|f IH]; intros l Hlen.
  - destruct l; [reflexivity | simpl in Hlen; lia].
  - destruct l as [|x l']; [reflexivity|].
    change (pages_aux (S f) (x :: l'))
      with (firstn 100 (x :: l') :: pages_aux f (skipn 100 (x :: l'))).
    rewrite concat_cons, IH.
    + apply firstn_skipn.
    + rewrite length_skipn. simpl in Hlen. simpl length. lia.
Qed.

Lemma pages_concat l : concat (pages l) = l.
Proof. apply pages_aux_concat. lia. Qed.

(* ------------------------------------------------------------------ *)
(** ** Successful state writes *)

Section StateWrites.

Variable ok : stmt -> bool.

Lemma insert_pages_effect n ps st st' v :
  iter_m (fun p => exec ok (SInsert n p)) ps st = (inr tt, st') -> conn st = Some v ->
  exists v', conn st' = Some v' /\ grows v v' /\ incl (concat ps) (rows_of n v').
Proof.
  revert st v. induction ps as [|p ps IH]; intros st v H Hc; simpl in H.
  - injection H as <-. exists v. split; [exact Hc|]. split; [apply grows_refl|intros x []].
  - inv_bind H; [discriminate|]. destruct a.
    destruct (exec_inr _ _ _ _ Hm) as (v0 & v1 & Hc0 & Ha & ->).
    rewrite Hc in Hc0. injection Hc0 as <-.
    destruct (apply_insert_effect _ _ _ _ Ha) as [Hg1 Hi1].
    destruct (IH _ v1 Hk eq_refl) as (v' & Hc' & Hg' & Hi').
    exists v'. split; [exact Hc'|]. split; [eapply grows_trans; eassumption|].
    rewrite concat_cons. apply incl_app; [|exact Hi'].
    eapply incl_tran; [exact Hi1|]. apply (Hg' n).
Qed.

Lemma group_effect g st st' v :
  (exec ok (SCreate (fst g) None) ;;; exec ok (SHyper (fst g)) ;;;
   execute_values ok (SInsert (fst g)) (snd g)) st = (inr tt, st') ->
  conn st = Some v ->
  exists v', conn st' = Some v' /\ grows v v' /\
             is_hypertable (fst g) v' = true /\ incl (snd g) (rows_of (fst g) v').
Proof.
  intros H Hc.
  inv_bind H; [discriminate|]. destruct a.
  destruct (exec_inr _ _ _ _ Hm) as (v0 & v1 & Hc0 & Ha1 & ->).
  rewrite Hc in Hc0. injection Hc0 as <-.
  inv_bind Hk; [discriminate|]. destruct a.
  destruct (exec_inr _ _ _ _ Hm0) as (v2 & v3 & Hc2 & Ha3 & ->).
  simpl in Hc2. injection Hc2 as <-.
  destruct (apply_hyper_effect _ _ _ Ha3) as [Hg3 Hh3].
  destruct (insert_pages_effect _ _ _ _ v3 Hk eq_refl) as (v' & Hc' & Hg' & Hi').
  rewrite pages_concat in Hi'.
  exists v'. split; [exact Hc'|]. split.
  - eapply grows_trans; [apply (apply_create_grows _ _ _ _ Ha1)|].
    eapply grows_trans; eassumption.
  - split; [apply (Hg' (fst g)); exact Hh3 | exact Hi'].
Qed.

Lemma groups_effect gs st st' v :
  iter_m (fun g => exec ok (SCreate (fst g) None) ;;; exec ok (SHyper (fst g)) ;;;
                   execute_values ok (SInsert (fst g)) (snd g)) gs st = (inr tt, st') ->
  conn st = Some v ->
  exists v', conn st' = Some v' /\ grows v v' /\
    forall g, In g gs -> is_hypertable (fst g) v' = true /\ incl (snd g) (rows_of (fst g) v').
Proof.
  revert st v. induction gs as [|g gs IH]; intros st v H Hc; simpl in H.
  - injection H as <-. exists v. split; [exact Hc|]. split; [apply grows_refl|intros g []].
  - inv_bind H; [discriminate|]. destruct a.
    destruct (group_effect g _ _ _ Hm Hc) as (v1 & Hc1 & Hg1 & Hh1 & Hi1).
    destruct (IH _ _ Hk Hc1) as (v' & Hc' & Hg' & Hall).
    exists v'. split; [exact Hc'|]. split; [eapply grows_trans; eassumption|].
    intros g' [Heq | Hin]; [subst g' | exact (Hall g' Hin)].
    destruct (Hg' (fst g)) as [Hr Hh]. split; [exact (Hh Hh1)|].
    eapply incl_tran; eassumption.
Qed.

End StateWrites.

Lemma add_to_group_new tn r acc :
  exists g, In g (add_to_group tn r acc) /\ fst g = tn /\ In r (snd g).
Proof.
  induction acc as [|[n rs] acc IH]; simpl.
  - exists (tn, [r]). simpl. auto.
  - destruct (String.eqb_spec n tn) as [->|Hn].
    + exists (tn, rs ++ [r]). simpl. split; [left; reflexivity|].
      split; [reflexivity|]. apply in_app_iff. right. left. reflexivity.
    + destruct IH as (g & Hin & Hf & Hr). exists g. simpl. auto.
Qed.

Lemma add_to_group_old tn r acc g :
  In g acc -> exists g', In g' (add_to_group tn r acc) /\ fst g' = fst g /\ incl (snd g) (snd g').
Proof.
  induction acc as [|[n rs] acc IH]; simpl; [intros []|].
  intros [<- | Hin].
  - destruct (String.eqb n tn).
    + exists (n, rs ++ [r]). simpl. split; [left; reflexivity|].
      split; [reflexivity | apply incl_appl, incl_refl].
    + exists (n, rs). simpl. split; [left; reflexivity | split; [reflexivity | apply incl_refl]].
  - destruct (String.eqb n tn).
    + exists g. simpl. split; [right; exact Hin | split; [reflexivity | apply incl_refl]].
    + destruct (IH Hin) as (g' & Hin' & Hf & Hi).
      exists g'. simpl. auto.
Qed.

(** Every state message of the batch lands in the group of its table. *)
Lemma states_by_table_covers now b m :
  In m b ->
  exists g, In g (states_by_table now b) /\ fst g = table_name (fst m) /\ In (state_row now m) (snd g).
Proof.
  unfold states_by_table.
  assert (Hgen : forall b acc,
    (In m b \/ exists g, In g acc /\ fst g = table_name (fst m) /\ In (state_row now m) (snd g)) ->
    exists g, In g (fold_left (fun g m0 => add_to_group (table_name (fst m0)) (state_row now m0) g) b acc)
              /\ fst g = table_name (fst m) /\ In (state_row now m) (snd g)).
  { induction b0 as [|x b0 IH]; intros acc [Hin | Hacc]; simpl.
    - contradiction.
    - exact Hacc.
    - apply IH. destruct Hin as [<- | Hin]; [right; apply add_to_group_new | left; exact Hin].
    - apply IH. right. destruct Hacc as (g & Hin & Hf & Hr).
      destruct (add_to_group_old (table_name (fst x)) (state_row now x) acc g Hin)
        as (g' & Hin' & Hf' & Hi').
      exists g'. split; [exact Hin'|]. split; [congruence | exact (Hi' _ Hr)]. }
  intros Hin. apply Hgen. left. exact Hin.
Qed.

Ltac bind_ok H a s Hm Hk :=
  apply bind_inv in H; destruct H as [(?e & ?Hfail & ?Hr) | (a & s & Hm & Hk)];
  [match goal with Hr : inr _ = inl _ |- _ => discriminate Hr end|].

(** After an iteration that completes, every state message that was
    waiting (batched or queued) is stored in its device table, and that
    table is a hypertable. *)
Lemma flushed_state_rows ok now st st' m :
  loop_iter ok now st = (st', Flushed) ->
  In m (f_state (batches st) ++ f_state (queues st)) ->
  is_hypertable (table_name (fst m)) (server st') = true /\
  In (state_row now m) (rows_of (table_name (fst m)) (server st')).
Proof.
  intros H Hin. unfold loop_iter in H.
  destruct (db_tick ok now st) as [[e|u] s1] eqn:Ht;
    [destruct e; discriminate H | injection H as <-].
  unfold db_tick in Ht.
  bind_ok Ht c s0 Hg Ht1. unfold gets in Hg. injection Hg as <- <-.
  bind_ok Ht1 u1 s2 Hph Ht2.
  (* the connection phase leaves queues and batches alone and opens the connection *)
  set (PF := fun x => queues x = queues st /\ batches x = batches st).
  assert (HPF : db_blind PF) by (intros x c sv Hx; exact Hx).
  assert (Hs2 : PF s2 /\ conn_open s2).
  { destruct (conn st) as [v|] eqn:Hc.
    - injection Hph as _ <-. split; [split; reflexivity|].
      unfold conn_open. rewrite Hc. discriminate.
    - split.
      + refine (keeps_bind _ _ _ (keeps_connect_blind _ HPF ok)
                  (fun _ => keeps_setup_blind _ HPF ok) _ _ _ Hph _). split; reflexivity.
      + destruct u1. eapply connect_phase_opens. exact Hph. }
  destruct Hs2 as [[Hq2 Hb2] Ho2].
  (* drain *)
  bind_ok Ht2 u2 s3 Hd Ht3. unfold drain, modify in Hd. injection Hd as _ <-.
  set (s3 := mkPState (conn s2) (server s2) empty_five (append_five (batches s2) (queues s2))) in *.
  assert (Ho3 : conn_open s3) by exact Ho2.
  set (B := f_state (batches s3)).
  set (PB := fun x => f_state (batches x) = B).
  assert (HPB : db_blind PB) by (intros x c sv Hx; exact Hx).
  assert (HexB : forall s, keeps PB (exec ok s)) by (intros s; apply keeps_exec_blind; exact HPB).
  (* the other three writes keep the state batch and the connection *)
  bind_ok Ht3 u3 s4 Hw1 Ht4.
  assert (H4 : PB s4 /\ conn_open s4).
  { split.
    - refine (keeps_write_discovery ok now PB HexB _ _ _ _ Hw1 eq_refl). intros x Hx; exact Hx.
    - refine (keeps_write_discovery ok now conn_open (keeps_exec_open ok) _ _ _ _ Hw1 Ho3).
      intros x Hx; exact Hx. }
  bind_ok Ht4 u4 s5 Hw2 Ht5.
  assert (H5 : PB s5 /\ conn_open s5).
  { split.
    - refine (keeps_write_entity ok now PB HexB _ _ _ _ Hw2 (proj1 H4)). intros x Hx; exact Hx.
    - refine (keeps_write_entity ok now conn_open (keeps_exec_open ok) _ _ _ _ Hw2 (proj2 H4)).
      intros x Hx; exact Hx. }
  bind_ok Ht5 u5 s6 Hw3 Ht6.
  assert (H6 : PB s6 /\ conn_open s6).
  { split.
    - refine (keeps_write_status ok now PB HexB _ _ _ _ Hw3 (proj1 H5)). intros x Hx; exact Hx.
    - refine (keeps_write_status ok now conn_open (keeps_exec_open ok) _ _ _ _ Hw3 (proj2 H5)).
      intros x Hx; exact Hx. }
  destruct H6 as [HB6 Ho6].
  (* write_state *)
  bind_ok Ht6 u6 s7 Hws Hcm.
  unfold write_state in Hws.
  bind_ok Hws b s8 Hgb Hws1. unfold gets in Hgb. injection Hgb as <- <-.
  assert (HinB : In m (f_state (batches s6))).
  { unfold PB in HB6. rewrite HB6. unfold B, s3. simpl. rewrite Hq2, Hb2. exact Hin. }
  destruct (f_state (batches s6)) as [|x l] eqn:Hb6; [contradiction|].
  bind_ok Hws1 u7 s9 Hgs Hmod. unfold modify in Hmod. injection Hmod as _ <-.
  destruct (conn s6) as [v6|] eqn:Hc6; [|exfalso; exact (Ho6 Hc6)].
  destruct u7.
  destruct (groups_effect ok _ _ _ v6 Hgs Hc6) as (v' & Hc' & _ & Hall).
  (* commit *)
  unfold commit in Hcm. simpl in Hcm. rewrite Hc' in Hcm.
  destruct (ok SCommit); [|discriminate Hcm].
  injection Hcm as _ <-. simpl.
  destruct (states_by_table_covers now (x :: l) m HinB) as (g & Hg & Hf & Hr).
  destruct (Hall g Hg) as [Hh Hi]. rewrite Hf in Hh, Hi.
  split; [exact Hh | exact (Hi _ Hr)].
Qed.

Lemma contains_dash_cons c s :
  Py.contains "-" (String c s) =
  (if ascii_dec "-"%char c then true else false) || Py.contains "-" s.
Proof.
  change (Py.contains "-" (String c s))
    with ((if ascii_dec "-"%char c then String.prefix "" s else false) || Py.contains "-" s).
  destruct s; reflexivity.
Qed.

Lemma replace_dash_no_dash s : Py.contains "-" (Py.replace_dash s) = false.
Proof.
  induction s as [|c s IH]; [reflexivity|].
  change (Py.replace_dash (String c s))
    with (String (if Ascii.eqb c "-"%char then "_"%char else c) (Py.replace_dash s)).
  rewrite contains_dash_cons, IH, orb_false_r.
  destruct (Ascii.eqb_spec c "-"%char) as [->|Hc]; [reflexivity|].
  destruct (ascii_dec "-"%char c) as [Heq|]; [congruence | reflexivity].
Qed.

Lemma replace_dash_get s i c :
  String.get i s = Some c -> c <> "-"%char -> String.get i (Py.replace_dash s) = Some c.
Proof.
  revert i. induction s as [|c' s IH]; intros i Hg Hc; [discriminate|].
  destruct i as [|i]; simpl in *.
  - injection Hg as ->. destruct (Ascii.eqb_spec c "-"%char); [contradiction|reflexivity].
  - exact (IH i Hg Hc).
Qed.

(** C8 (amended): the device table name is [esphome_] followed by the
    topic's first segment with every '-' replaced by '_'; all other
    characters are kept as they are, so the name has no '-' but may
    hold other non-alphanumeric characters.  Every device table written
    by an iteration that completes is registered as a hypertable. *)
Theorem device_table_name_and_hypertable :
  (forall topic, table_name topic = ("esphome_" ++ Py.replace_dash (Py.first_segment topic))%string) /\
  (forall topic, Py.contains "-" (table_name topic) = false) /\
  (forall topic i c, String.get i (Py.first_segment topic) = Some c -> c <> "-"%char ->
     String.get (8 + i) (table_name topic) = Some c) /\
  (forall ok now st st' topic payload,
     loop_iter ok now st = (st', Flushed) ->
     In (topic, payload) (f_state (batches st) ++ f_state (queues st)) ->
     is_hypertable (table_name topic) (server st') = true).
Proof.
  split; [reflexivity|]. split; [|split].
  - intros topic. unfold table_name. simpl. apply replace_dash_no_dash.
  - intros topic i c Hg Hc. unfold table_name. simpl. apply replace_dash_get; assumption.
  - intros ok now st st' topic payload H Hin.
    exact (proj1 (flushed_state_rows ok now st st' (topic, payload) H Hin)).
Qed.

Lemma device_table_name_and_hypertable_witness :
  String.get 1 (Py.first_segment "my.dev/sensor/temp/state") = Some "y"%char /\
  String.get 9 (table_name "my.dev/sensor/temp/state") = Some "y"%char /\
  is_hypertable (table_name "my-dev/sensor/temp/state")
    (server (fst (loop_iter all_ok "t1" (fresh (push_state ("my-dev/sensor/temp/state", "21.5") empty_five))))) = true.
Proof.
  destruct device_table_name_and_hypertable as (_ & _ & Hget & Hhyp).
  split; [vm_compute; reflexivity|]. split.
  - apply (Hget "my.dev/sensor/temp/state" 1 "y"%char); [vm_compute; reflexivity | discriminate].
  - apply (Hhyp all_ok "t1" (fresh (push_state ("my-dev/sensor/temp/state", "21.5") empty_five))
             (fst (loop_iter all_ok "t1" (fresh (push_state ("my-dev/sensor/temp/state", "21.5") empty_five))))
             "my-dev/sensor/temp/state" "21.5").
    + vm_compute. reflexivity.
    + vm_compute. left. reflexivity.
Defined.


Lemma entity_config_accepted_but_never_flushed_witness :
  on_mqtt_message loads "homeassistant/light/dev1_light/config" ent_no_uid_text empty_five =
    (push_entity ent_no_uid empty_five, LogNothing) /\
  entity_row "t1" ent_no_uid = inl KeyError.
Proof.
  destruct (entity_config_accepted_but_never_flushed loads "homeassistant/light/dev1_light/config"
              ent_no_uid_text ent_no_uid (JObj [("identifiers", JArr [JStr "dev1"])]))
    as (Hq & Hrow & _ & _);
    try (vm_compute; reflexivity).
  split; [apply Hq | apply Hrow].
Defined.

(* ================================================================== *)
(** * Further properties of the code *)

Lemma str_app_assoc (a b c : string) : ((a ++ b) ++ c = a ++ (b ++ c))%string.
Proof. induction a as [|x a IH]; simpl; [reflexivity | rewrite IH; reflexivity]. Qed.

Lemma str_app_nil_r (a : string) : (a ++ "")%string = a.
Proof. induction a as [|x a IH]; simpl; [reflexivity | rewrite IH; reflexivity]. Qed.

Lemma str_length_app (a b : string) : String.length (a ++ b) = String.length a + String.length b.
Proof. induction a as [|x a IH]; simpl; [reflexivity | rewrite IH; reflexivity]. Qed.

Lemma substring_all (s : string) : substring 0 (String.length s) s = s.
Proof. induction s as [|x s IH]; simpl; [reflexivity | rewrite IH; reflexivity]. Qed.

Lemma substring_app_r (x y : string) i m :
  substring (String.length x + i) m (x ++ y) = substring i m y.
Proof. induction x as [|c x IH]; simpl; [reflexivity | exact IH]. Qed.

Lemma substring_split (s : string) k :
  k <= String.length s ->
  s = (substring 0 k s ++ substring k (String.length s - k) s)%string.
Proof.
  revert k. induction s as [|c s IH]; intros k Hk; simpl in *.
  - destruct k; [reflexivity | lia].
  - destruct k as [|k]; simpl.
    + rewrite substring_all. reflexivity.
    + f_equal. apply IH. lia.
Qed.

Lemma endswith_app (suf x : string) : Py.endswith suf (x ++ suf) = true.
Proof.
  unfold Py.endswith. rewrite str_length_app.
  replace (String.length x + String.length suf - String.length suf) with (String.length x + 0) by lia.
  rewrite substring_app_r, substring_all, String.eqb_refl.
  apply andb_true_intro. split; [apply Nat.leb_le; lia | reflexivity].
Qed.

Lemma endswith_inv (suf s : string) : Py.endswith suf s = true -> exists x, s = (x ++ suf)%string.
Proof.
  unfold Py.endswith. intros H. apply andb_prop in H. destruct H as [Hle Heq].
  apply Nat.leb_le in Hle. apply String.eqb_eq in Heq.
  exists (substring 0 (String.length s - String.length suf) s).
  rewrite (substring_split s (String.length s - String.length suf)) at 1 by lia.
  replace (String.length s - (String.length s - String.length suf)) with (String.length suf) by lia.
  rewrite Heq. reflexivity.
Qed.

Lemma last_char_inj (a b : string) c d :
  (a ++ String c "")%string = (b ++ String d "")%string -> a = b /\ c = d.
Proof.
  revert b. induction a as [|x a IH]; intros b H; destruct b as [|y b]; simpl in H.
  - injection H as ->. auto.
  - injection H as -> H. destruct b; discriminate.
  - injection H as -> H. destruct a; discriminate.
  - injection H as -> H. destruct (IH b H) as [-> ->]. auto.
Qed.

Lemma prefix_inv (p s : string) : String.prefix p s = true -> exists y, s = (p ++ y)%string.
Proof.
  revert s. induction p as [|c p IH]; intros s H.
  - exists s. reflexivity.
  - destruct s as [|c' s]; simpl in H; [discriminate|].
    destruct (ascii_dec c c') as [<-|]; [|discriminate].
    destruct (IH s H) as [y ->]. exists y. reflexivity.
Qed.

Lemma contains_inv (p s : string) : Py.contains p s = true -> exists x y, s = (x ++ p ++ y)%string.
Proof.
  induction s as [|c s IH]; intros H.
  - destruct p as [|c p]; [exists "", ""; reflexivity | discriminate].
  - change (Py.contains p (String c s)) with (String.prefix p (String c s) || Py.contains p s) in H.
    apply orb_true_iff in H. destruct H as [H|H].
    + destruct (prefix_inv _ _ H) as [y Hy]. exists "", y. exact Hy.
    + destruct (IH H) as (x & y & ->). exists (String c x), y. reflexivity.
Qed.

Lemma no_slash_app (a b : string) : no_slash (a ++ b) = no_slash a && no_slash b.
Proof. induction a as [|x a IH]; simpl; [reflexivity | rewrite IH, andb_assoc; reflexivity]. Qed.

Lemma slash_unique (a s b t : string) :
  no_slash a = true -> no_slash s = true ->
  (a ++ String "/" s)%string = (b ++ String "/" t)%string -> a = b /\ s = t.
Proof.
  revert b. induction a as [|x a IH]; intros b Ha Hs H; destruct b as [|y b]; simpl in H.
  - injection H as ->. auto.
  - injection H as <- H. subst s. rewrite no_slash_app in Hs. simpl in Hs.
    rewrite andb_false_r in Hs. discriminate.
  - injection H as -> H. simpl in Ha. discriminate.
  - injection H as -> H. simpl in Ha. apply andb_prop in Ha. destruct Ha as [_ Ha].
    destruct (IH b Ha Hs H) as [-> ->]. auto.
Qed.

Lemma split_aux_nonempty cur s : Py.split_slash_aux cur s <> [].
Proof.
  revert cur. induction s as [|c s IH]; intros cur; simpl; [discriminate|].
  destruct (Ascii.eqb c "/"%char); [discriminate | apply IH].
Qed.

Lemma split_aux_join cur s :
  no_slash cur = true ->
  String.concat "/" (Py.split_slash_aux cur s) = (cur ++ s)%string /\
  Forall (fun x => no_slash x = true) (Py.split_slash_aux cur s).
Proof.
  revert cur. induction s as [|c s IH]; intros cur Hc; simpl.
  - rewrite str_app_nil_r. auto.
  - destruct (Ascii.eqb_spec c "/"%char) as [->|Hne].
    + destruct (IH "" eq_refl) as [Hj Hf].
      split; [|constructor; assumption].
      destruct (Py.split_slash_aux "" s) as [|x l] eqn:Hl; [exfalso; exact (split_aux_nonempty _ _ Hl)|].
      simpl. simpl in Hj. rewrite Hj. reflexivity.
    + assert (Hc' : no_slash (cur ++ String c "") = true).
      { rewrite no_slash_app, Hc. simpl. destruct (Ascii.eqb_spec c "/"%char); [contradiction|reflexivity]. }
      destruct (IH _ Hc') as [Hj Hf]. split; [|exact Hf].
      rewrite Hj, str_app_assoc. reflexivity.
Qed.

Lemma split_join s :
  String.concat "/" (Py.split_slash s) = s /\ Forall (fun x => no_slash x = true) (Py.split_slash s).
Proof. apply (split_aux_join "" s eq_refl). Qed.

Lemma split_aux_no_slash cur a s :
  no_slash a = true -> Py.split_slash_aux cur (a ++ s) = Py.split_slash_aux (cur ++ a) s.
Proof.
  revert cur. induction a as [|c a IH]; intros cur Ha; simpl.
  - rewrite str_app_nil_r. reflexivity.
  - simpl in Ha. apply andb_prop in Ha. destruct Ha as [Hc Ha].
    destruct (Ascii.eqb c "/"%char); [discriminate|].
    rewrite IH by exact Ha. rewrite str_app_assoc. reflexivity.
Qed.


Lemma endswith_last_differs (suf1 suf2 p1 p2 s : string) c1 c2 :
  suf1 = (p1 ++ String c1 "")%string -> suf2 = (p2 ++ String c2 "")%string -> c1 <> c2 ->
  Py.endswith suf1 s = true -> Py.endswith suf2 s = false.
Proof.
  intros -> -> Hc H1. destruct (Py.endswith (p2 ++ String c2 "") s) eqn:H2; [|reflexivity].
  destruct (endswith_inv _ _ H1) as [x Hx]. destruct (endswith_inv _ _ H2) as [y Hy].
  rewrite Hx, <- !str_app_assoc in Hy.
  destruct (last_char_inj _ _ _ _ Hy) as [_ Heq]. contradiction.
Qed.

Lemma no_discover_in_level (a rest : string) :
  no_slash a = true -> no_slash rest = true ->
  Py.contains "esphome/discover" (a ++ String "/" rest) = true -> String.length rest >= 8.
Proof.
  intros Ha Hr H. destruct (contains_inv _ _ H) as (x & y & Hxy).
  replace (x ++ "esphome/discover" ++ y)%string
    with ((x ++ "esphome") ++ String "/" ("discover" ++ y))%string in Hxy
    by (rewrite str_app_assoc; reflexivity).
  destruct (slash_unique _ _ _ _ Ha Hr Hxy) as [_ ->].
  rewrite str_length_app. simpl. lia.
Qed.

Lemma match_levels_nil t : match_levels [] t = true -> t = [].
Proof. destruct t; [reflexivity | discriminate]. Qed.

Lemma match_levels_level x f t :
  match_levels (x :: f) t = true -> x <> "#" ->
  exists y t', t = y :: t' /\ (x = "+" \/ x = y) /\ match_levels f t' = true.
Proof.
  intros H Hx. simpl in H. destruct (String.eqb_spec x "#") as [|_]; [contradiction|].
  destruct t as [|y t']; [discriminate|].
  apply andb_prop in H. destruct H as [H1 H2]. exists y, t'. split; [reflexivity|]. split; [|exact H2].
  apply orb_true_iff in H1. destruct H1 as [H1|H1]; apply String.eqb_eq in H1; auto.
Qed.

(** A topic delivered through a filter of [+] and literal levels. *)
Lemma mqtt_match_levels filter topic :
  mqtt_match filter topic = true -> match_levels (Py.split_slash filter) (Py.split_slash topic) = true.
Proof.
  unfold mqtt_match. destruct (_ && _); [discriminate | exact id].
Qed.

Lemma match_plus_status topic :
  mqtt_match "+/status" topic = true ->
  exists a, topic = (a ++ "/status")%string /\ no_slash a = true.
Proof.
  intros H. apply mqtt_match_levels in H. change (Py.split_slash "+/status") with ["+"; "status"] in H.
  destruct (split_join topic) as [Hj Hf].
  destruct (match_levels_level _ _ _ H ltac:(discriminate)) as (a & t1 & Ht1 & _ & H1).
  destruct (match_levels_level _ _ _ H1 ltac:(discriminate)) as (b & t2 & Ht2 & [Hb|Hb] & H2);
    [discriminate|subst b].
  apply match_levels_nil in H2. subst t2 t1. rewrite Ht1 in Hj, Hf.
  exists a. split; [rewrite <- Hj; reflexivity | inversion Hf; assumption].
Qed.

Lemma match_plus3 (w topic : string) :
  match_levels ["+"; "+"; "+"; w] (Py.split_slash topic) = true -> w <> "#" -> w <> "+" ->
  exists x, topic = (x ++ String "/" w)%string.
Proof.
  intros H Hw1 Hw2. destruct (split_join topic) as [Hj _].
  destruct (match_levels_level _ _ _ H ltac:(discriminate)) as (a & t1 & Ht1 & _ & H1).
  destruct (match_levels_level _ _ _ H1 ltac:(discriminate)) as (b & t2 & Ht2 & _ & H2).
  destruct (match_levels_level _ _ _ H2 ltac:(discriminate)) as (c & t3 & Ht3 & _ & H3).
  destruct (match_levels_level _ _ _ H3 Hw1) as (d & t4 & Ht4 & [Hd|Hd] & H4); [contradiction|subst d].
  apply match_levels_nil in H4. subst t4 t3 t2 t1. rewrite Ht1 in Hj.
  exists (a ++ "/" ++ b ++ "/" ++ c)%string. rewrite <- Hj.
  rewrite !str_app_assoc. reflexivity.
Qed.

Lemma match_state topic :
  mqtt_match "+/+/+/state" topic = true -> exists x, topic = (x ++ "/state")%string.
Proof.
  intros H. apply mqtt_match_levels in H.
  change (Py.split_slash "+/+/+/state") with ["+"; "+"; "+"; "state"] in H.
  exact (match_plus3 _ _ H ltac:(discriminate) ltac:(discriminate)).
Qed.

Lemma match_command topic :
  mqtt_match "+/+/+/command" topic = true -> exists x, topic = (x ++ "/command")%string.
Proof.
  intros H. apply mqtt_match_levels in H.
  change (Py.split_slash "+/+/+/command") with ["+"; "+"; "+"; "command"] in H.
  exact (match_plus3 _ _ H ltac:(discriminate) ltac:(discriminate)).
Qed.

(** X1: on a successful connection (rc = 0) the client subscribes to five
    filters, and to none otherwise.  A UTF-8 message whose topic matches
    [+/status] is put on the status queue, and one matching [+/+/+/state]
    or [+/+/+/command] outside [esphome/discover] on the state or command
    queue, with no log entry. *)
Theorem subscribed_topics_routing :
  fst (on_mqtt_connect 0) =
    ["homeassistant/#"; "esphome/discover/#"; "+/status"; "+/+/+/state"; "+/+/+/command"] /\
  (forall rc, rc <> 0 -> fst (on_mqtt_connect rc) = []) /\
  (forall json_loads topic payload q,
     Utf8.decode payload = Some payload -> mqtt_match "+/status" topic = true ->
     on_mqtt_message json_loads topic payload q = (push_status (topic, payload) q, LogNothing)) /\
  (forall json_loads topic payload q,
     Utf8.decode payload = Some payload -> mqtt_match "+/+/+/state" topic = true ->
     Py.contains "esphome/discover" topic = false ->
     on_mqtt_message json_loads topic payload q = (push_state (topic, payload) q, LogNothing)) /\
  (forall json_loads topic payload q,
     Utf8.decode payload = Some payload -> mqtt_match "+/+/+/command" topic = true ->
     Py.contains "esphome/discover" topic = false ->
     on_mqtt_message json_loads topic payload q = (push_command (topic, payload) q, LogNothing)).
Proof.
  split; [reflexivity|]. split.
  { intros rc Hrc. unfold on_mqtt_connect. destruct (Nat.eqb_spec rc 0); [contradiction|reflexivity]. }
  split; [|split].
  - intros json_loads topic payload q Hdec Hm.
    destruct (match_plus_status topic Hm) as (a & Ht & Ha).
    assert (Hend : Py.endswith "/status" topic = true) by (rewrite Ht; apply endswith_app).
    assert (Hcfg : Py.endswith "/config" topic = false).
    { apply (endswith_last_differs "/status" "/config" "/statu" "/confi" topic "s" "g");
        [reflexivity | reflexivity | discriminate | exact Hend]. }
    assert (Hdisc : Py.contains "esphome/discover" topic = false).
    { destruct (Py.contains "esphome/discover" topic) eqn:Hc; [|reflexivity].
      rewrite Ht in Hc. apply no_discover_in_level in Hc; [simpl in Hc; lia | exact Ha | reflexivity]. }
    unfold on_mqtt_message. rewrite Hdec, Hdisc, Hcfg, andb_false_r, Hend. reflexivity.
  - intros json_loads topic payload q Hdec Hm Hdisc.
    destruct (match_state topic Hm) as (x & Ht).
    assert (Hend : Py.endswith "/state" topic = true) by (rewrite Ht; apply endswith_app).
    assert (Hcfg : Py.endswith "/config" topic = false).
    { apply (endswith_last_differs "/state" "/config" "/stat" "/confi" topic "e" "g");
        [reflexivity | reflexivity | discriminate | exact Hend]. }
    assert (Hst : Py.endswith "/status" topic = false).
    { apply (endswith_last_differs "/state" "/status" "/stat" "/statu" topic "e" "s");
        [reflexivity | reflexivity | discriminate | exact Hend]. }
    unfold on_mqtt_message. rewrite Hdec, Hdisc, Hcfg, andb_false_r, Hst, Hend. reflexivity.
  - intros json_loads topic payload q Hdec Hm Hdisc.
    destruct (match_command topic Hm) as (x & Ht).
    assert (Hend : Py.endswith "/command" topic = true) by (rewrite Ht; apply endswith_app).
    assert (Hcfg : Py.endswith "/config" topic = false).
    { apply (endswith_last_differs "/command" "/config" "/comman" "/confi" topic "d" "g");
        [reflexivity | reflexivity | discriminate | exact Hend]. }
    assert (Hst : Py.endswith "/status" topic = false).
    { apply (endswith_last_differs "/command" "/status" "/comman" "/statu" topic "d" "s");
        [reflexivity | reflexivity | discriminate | exact Hend]. }
    assert (Hsa : Py.endswith "/state" topic = false).
    { apply (endswith_last_differs "/command" "/state" "/comman" "/stat" topic "d" "e");
        [reflexivity | reflexivity | discriminate | exact Hend]. }
    unfold on_mqtt_message. rewrite Hdec, Hdisc, Hcfg, andb_false_r, Hst, Hsa, Hend. reflexivity.
Qed.





Lemma create_effect n k v v' :
  apply_stmt (SCreate n k) v = Some v' ->
  same_tables v' v /\ db_lookup n v' <> None /\
  (forall m, db_lookup m v <> None -> db_lookup m v' = db_lookup m v) /\
  (db_lookup n v <> None -> v' = v).
Proof.
  simpl. destruct (db_lookup n v) as [t|] eqn:Hl; intros H; injection H as <-.
  - split; [intros m; auto|]. split; [rewrite Hl; discriminate|]. split; [auto|]. auto.
  - split; [|split; [|split]].
    + intros m. unfold rows_of, is_hypertable. rewrite db_lookup_app.
      destruct (db_lookup m v) as [tm|]; [auto|]. simpl.
      destruct (String.eqb m n); auto.
    + rewrite db_lookup_app, Hl. simpl. rewrite String.eqb_refl. discriminate.
    + intros m Hm. rewrite db_lookup_app. destruct (db_lookup m v); [reflexivity | contradiction].
    + intros Hc. contradiction.
Qed.

Lemma commit_fail_same ok st e st' : commit ok st = (inl e, st') -> st' = st.
Proof.
  unfold commit. destruct (conn st); [destruct (ok SCommit)|]; intros H; inversion H; reflexivity.
Qed.

Lemma commit_ok_effect ok st u st' :
  commit ok st = (inr u, st') ->
  exists v, conn st = Some v /\ st' = mkPState (Some v) v (queues st) (batches st).
Proof.
  unfold commit. destruct (conn st) as [v|]; [destruct (ok SCommit)|]; intros H; inversion H.
  exists v. auto.
Qed.

Lemma connect_ok_effect ok st u st' :
  connect ok st = (inr u, st') -> st' = set_conn (Some (server st)) st.
Proof. unfold connect. destruct (ok SConnect); intros H; inversion H; reflexivity. Qed.

(** Every statement leaves the committed database alone. *)
Lemma keeps_exec_server ok S s : keeps (fun st => server st = S) (exec ok s).
Proof.
  intros st r st' H Hs. unfold exec in H.
  destruct (conn st) as [v|]; [destruct (ok s); [destruct (apply_stmt s v)|]|];
    injection H as _ <-; exact Hs.
Qed.


Lemma fails_keep_server_seq {A B} (m : M A) (k : A -> M B) :
  (forall S, keeps (fun s => server s = S) m) -> (forall a, fails_keep_server (k a)) ->
  fails_keep_server (bind m k).
Proof.
  intros Hm Hk s e s' H. inv_bind H.
  - exact (Hm (server s) _ _ _ Hm0 eq_refl).
  - rewrite (Hk _ _ _ _ Hk0). exact (Hm (server s) _ _ _ Hm0 eq_refl).
Qed.

Lemma fails_keep_server_commit ok : fails_keep_server (commit ok).
Proof. intros s e s' H. rewrite (commit_fail_same _ _ _ _ H). reflexivity. Qed.

Lemma keeps_connect_server ok S : keeps (fun st => server st = S) (connect ok).
Proof.
  intros st r st' H Hs. unfold connect in H. destruct (ok SConnect); injection H as _ <-; exact Hs.
Qed.

Lemma connect_phase_fails_keep ok : fails_keep_server (connect ok ;;; setup_database_tables ok).
Proof.
  apply fails_keep_server_seq; [apply keeps_connect_server | intros _].
  unfold setup_database_tables.
  repeat (apply fails_keep_server_seq; [intros S; apply keeps_exec_server | intros _]).
  apply fails_keep_server_commit.
Qed.

Lemma flush_steps_fail_keep ok now :
  fails_keep_server (drain ;;; write_discovery ok now ;;; write_entity ok now ;;;
                     write_status ok now ;;; write_state ok now ;;; commit ok).
Proof.
  apply fails_keep_server_seq; [intros S; apply keeps_modify; intros st H; exact H | intros _].
  apply fails_keep_server_seq;
    [intros S; apply keeps_write_discovery; [intros s; apply keeps_exec_server | intros st H; exact H] | intros _].
  apply fails_keep_server_seq;
    [intros S; apply keeps_write_entity; [intros s; apply keeps_exec_server | intros st H; exact H] | intros _].
  apply fails_keep_server_seq;
    [intros S; apply keeps_write_status; [intros s; apply keeps_exec_server | intros st H; exact H] | intros _].
  apply fails_keep_server_seq;
    [intros S; apply keeps_write_state; [intros s; apply keeps_exec_server | intros st H; exact H] | intros _].
  apply fails_keep_server_commit.
Qed.

Lemma lookup_persists v v' n :
  (forall m, db_lookup m v <> None -> db_lookup m v' = db_lookup m v) ->
  db_lookup n v <> None -> db_lookup n v' <> None.
Proof. intros K H. rewrite (K n H). exact H. Qed.

Lemma same_tables_refl v : same_tables v v.
Proof. intros n; auto. Qed.

Lemma same_tables_trans u v w : same_tables u v -> same_tables v w -> same_tables u w.
Proof. intros H1 H2 n. destruct (H1 n), (H2 n). split; congruence. Qed.

(** A successful connection phase: the four fixed tables exist, every
    table keeps its rows and flag, and nothing is left uncommitted. *)
Lemma connect_phase_effect ok st st' :
  (connect ok ;;; setup_database_tables ok) st = (inr tt, st') ->
  conn st' = Some (server st') /\ queues st' = queues st /\ batches st' = batches st /\
  same_tables (server st') (server st) /\
  (forall n, In n fixed_tables -> db_lookup n (server st') <> None) /\
  ((forall n, In n fixed_tables -> db_lookup n (server st) <> None) -> server st' = server st).
Proof.
  intros H. apply bind_inv in H. destruct H as [(e & _ & He) | (u & s0 & H0 & H)]; [discriminate|].
  apply connect_ok_effect in H0. subst s0. unfold setup_database_tables in H.
  apply bind_inv in H. destruct H as [(e & _ & He) | (u1 & s1 & H1 & H)]; [discriminate|]. destruct u1.
  destruct (exec_inr _ _ _ _ H1) as (v0 & v1 & Hc0 & Ha1 & ->). simpl in Hc0. injection Hc0 as <-.
  apply bind_inv in H. destruct H as [(e & _ & He) | (u2 & s2 & H2 & H)]; [discriminate|]. destruct u2.
  destruct (exec_inr _ _ _ _ H2) as (w1 & v2 & Hc1 & Ha2 & ->). simpl in Hc1. injection Hc1 as <-.
  apply bind_inv in H. destruct H as [(e & _ & He) | (u3 & s3 & H3 & H)]; [discriminate|]. destruct u3.
  destruct (exec_inr _ _ _ _ H3) as (w2 & v3 & Hc2 & Ha3 & ->). simpl in Hc2. injection Hc2 as <-.
  apply bind_inv in H. destruct H as [(e & _ & He) | (u4 & s4 & H4 & Hk)]; [discriminate|]. destruct u4.
  destruct (exec_inr _ _ _ _ H4) as (w3 & v4 & Hc3 & Ha4 & ->). simpl in Hc3. injection Hc3 as <-.
  destruct (commit_ok_effect _ _ _ _ Hk) as (w4 & Hc4 & ->). simpl in Hc4. injection Hc4 as <-.
  simpl.
  destruct (create_effect _ _ _ _ Ha1) as (S1 & L1 & K1 & I1).
  destruct (create_effect _ _ _ _ Ha2) as (S2 & L2 & K2 & I2).
  destruct (create_effect _ _ _ _ Ha3) as (S3 & L3 & K3 & I3).
  destruct (create_effect _ _ _ _ Ha4) as (S4 & L4 & K4 & I4).
  split; [reflexivity|]. split; [reflexivity|]. split; [reflexivity|].
  split; [eapply same_tables_trans; [exact S4|]; eapply same_tables_trans; [exact S3|];
          eapply same_tables_trans; [exact S2 | exact S1]|].
  split.
  - intros n Hn. simpl in Hn.
    destruct Hn as [<- | [<- | [<- | [<- | []]]]].
    + apply (lookup_persists _ _ _ K4), (lookup_persists _ _ _ K3), (lookup_persists _ _ _ K2). exact L1.
    + apply (lookup_persists _ _ _ K4), (lookup_persists _ _ _ K3). exact L2.
    + apply (lookup_persists _ _ _ K4). exact L3.
    + exact L4.
  - intros Hall.
    pose proof (I1 (Hall "discovery_data" ltac:(simpl; tauto))) as E1. subst v1.
    pose proof (I2 (Hall "entity" ltac:(simpl; tauto))) as E2. subst v2.
    pose proof (I3 (Hall "device_status" ltac:(simpl; tauto))) as E3. subst v3.
    exact (I4 (Hall "command" ltac:(simpl; tauto))).
Qed.


Lemma db_tick_fail_tables ok now st e st' :
  db_tick ok now st = (inl e, st') ->
  same_tables (server st') (server st) /\ (conn st <> None -> server st' = server st).
Proof.
  intros H. unfold db_tick in H.
  apply bind_inv in H. destruct H as [(e0 & Hg & _) | (c & s0 & Hg & H)]; [discriminate|].
  unfold gets in Hg. injection Hg as <- <-.
  apply bind_inv in H. destruct H as [(e1 & Hph & He1) | (u & s2 & Hph & Hrest)].
  - destruct (conn st) as [v|] eqn:Hc; [discriminate|].
    rewrite (connect_phase_fails_keep ok _ _ _ Hph). split; [apply same_tables_refl | intros; reflexivity].
  - rewrite (flush_steps_fail_keep ok now _ _ _ Hrest).
    destruct (conn st) as [v|] eqn:Hc.
    + injection Hph as _ <-. split; [apply same_tables_refl | intros; reflexivity].
    + destruct u. destruct (connect_phase_effect ok st s2 Hph) as (_ & _ & _ & Hs & _).
      split; [exact Hs | intros Hn; contradiction].
Qed.

Lemma phase_ok_needs ok st u st' :
  (connect ok ;;; setup_database_tables ok) st = (inr u, st') -> ok SConnect = true /\ ok SCommit = true.
Proof.
  intros H. apply bind_inv in H. destruct H as [(e & _ & He) | (u0 & s0 & H0 & H)]; [discriminate|].
  unfold connect in H0. destruct (ok SConnect) eqn:Hcn; [|discriminate]. split; [reflexivity|].
  unfold setup_database_tables in H.
  repeat (apply bind_inv in H; destruct H as [(?e & _ & ?He) | (?u & ?s & _ & H)]; [discriminate|]).
  unfold commit in H. destruct (conn _); [|discriminate]. destruct (ok SCommit); [reflexivity | discriminate].
Qed.

Lemma bind_fail {A B} (m : M A) (k : A -> M B) st e s :
  m st = (inl e, s) -> bind m k st = (inl e, s).
Proof. intros H. unfold bind. rewrite H. reflexivity. Qed.

Lemma refused_connection_iteration ok now st :
  conn st = None -> ok SConnect = false \/ ok SCommit = false ->
  loop_iter ok now st = (st, DbFailed).
Proof.
  intros Hc Hok. unfold loop_iter, db_tick.
  unfold bind at 1, gets. rewrite Hc.
  destruct ((connect ok ;;; setup_database_tables ok) st) as [[e|u] s1] eqn:Hph.
  - pose proof (connect_phase_db_errors_only ok st e s1 Hph) as ->.
    pose proof (connect_phase_fails_keep ok _ _ _ Hph) as Hs.
    set (P := fun x => queues x = queues st /\ batches x = batches st).
    assert (HP : db_blind P) by (intros x c sv Hx; exact Hx).
    assert (Hq : P s1).
    { refine (keeps_bind _ _ _ (keeps_connect_blind _ HP ok) (fun _ => keeps_setup_blind _ HP ok) _ _ _ Hph _).
      split; reflexivity. }
    destruct Hq as [Hq Hb]. destruct st as [c0 sv0 q0 b0]. simpl in *. subst c0.
    rewrite (bind_fail _ _ _ _ _ Hph). unfold set_conn. rewrite Hs, Hq, Hb. reflexivity.
  - exfalso. destruct (phase_ok_needs ok st u s1 Hph) as [H1 H2].
    destruct Hok as [Hok|Hok]; congruence.
Qed.

(** The four write steps, on success: their own batch is cleared, the
    queues and the other batches are kept. *)
Section WriteOk.

Variable ok : stmt -> bool.
Variable now : string.


Lemma qb_blind Q B : db_blind (qb_is Q B).
Proof. intros x c sv Hx. exact Hx. Qed.

Lemma keeps_execute_values_qb Q B mk rows : keeps (qb_is Q B) (execute_values ok mk rows).
Proof. apply keeps_execute_values. intros s. apply keeps_exec_blind, qb_blind. Qed.

Lemma write_discovery_ok s u s' :
  write_discovery ok now s = (inr u, s') ->
  queues s' = queues s /\ batches s' = clear_discovery (batches s).
Proof.
  intros H. unfold write_discovery in H.
  apply bind_inv in H. destruct H as [(e & Hg & _) | (b & s0 & Hg & H)]; [discriminate|].
  unfold gets in Hg. injection Hg as <- <-.
  destruct (f_discovery (batches s)) as [|x l] eqn:Hb.
  - injection H as _ <-. split; [reflexivity|].
    destruct (batches s) as [d0 e0 st0 sa0 c0]. simpl in *. subst d0. reflexivity.
  - apply bind_inv in H. destruct H as [(e & Hl & He) | (rows & s1 & Hl & H)].
    + unfold lift in Hl. injection Hl as Hl _. subst. discriminate.
    + unfold lift in Hl. injection Hl as _ <-.
      apply bind_inv in H. destruct H as [(e & Hx & He) | (u1 & s2 & Hx & H)]; [subst; discriminate|].
      destruct (keeps_execute_values_qb (queues s) (batches s) _ _ _ _ _ Hx (conj eq_refl eq_refl)) as [Hq Hbb].
      unfold modify in H. injection H as _ <-. simpl. rewrite Hq, Hbb. split; reflexivity.
Qed.

Lemma write_entity_ok s u s' :
  write_entity ok now s = (inr u, s') ->
  queues s' = queues s /\ batches s' = clear_entity (batches s).
Proof.
  intros H. unfold write_entity in H.
  apply bind_inv in H. destruct H as [(e & Hg & _) | (b & s0 & Hg & H)]; [discriminate|].
  unfold gets in Hg. injection Hg as <- <-.
  destruct (f_entity (batches s)) as [|x l] eqn:Hb.
  - injection H as _ <-. split; [reflexivity|].
    destruct (batches s) as [d0 e0 st0 sa0 c0]. simpl in *. subst e0. reflexivity.
  - apply bind_inv in H. destruct H as [(e & Hl & He) | (rows & s1 & Hl & H)].
    + unfold lift in Hl. injection Hl as Hl _. subst. discriminate.
    + unfold lift in Hl. injection Hl as _ <-.
      apply bind_inv in H. destruct H as [(e & Hx & He) | (u1 & s2 & Hx & H)]; [subst; discriminate|].
      destruct (keeps_execute_values_qb (queues s) (batches s) _ _ _ _ _ Hx (conj eq_refl eq_refl)) as [Hq Hbb].
      unfold modify in H. injection H as _ <-. simpl. rewrite Hq, Hbb. split; reflexivity.
Qed.

Lemma write_status_ok s u s' :
  write_status ok now s = (inr u, s') ->
  queues s' = queues s /\ batches s' = clear_status (batches s).
Proof.
  intros H. unfold write_status in H.
  apply bind_inv in H. destruct H as [(e & Hg & _) | (b & s0 & Hg & H)]; [discriminate|].
  unfold gets in Hg. injection Hg as <- <-.
  destruct (f_status (batches s)) as [|x l] eqn:Hb.
  - injection H as _ <-. split; [reflexivity|].
    destruct (batches s) as [d0 e0 st0 sa0 c0]. simpl in *. subst st0. reflexivity.
  - apply bind_inv in H. destruct H as [(e & Hx & He) | (u1 & s2 & Hx & H)]; [subst; discriminate|].
    destruct (keeps_execute_values_qb (queues s) (batches s) _ _ _ _ _ Hx (conj eq_refl eq_refl)) as [Hq Hbb].
    unfold modify in H. injection H as _ <-. simpl. rewrite Hq, Hbb. split; reflexivity.
Qed.

Lemma write_state_ok s u s' :
  write_state ok now s = (inr u, s') ->
  queues s' = queues s /\ batches s' = clear_state (batches s).
Proof.
  intros H. unfold write_state in H.
  apply bind_inv in H. destruct H as [(e & Hg & _) | (b & s0 & Hg & H)]; [discriminate|].
  unfold gets in Hg. injection Hg as <- <-.
  destruct (f_state (batches s)) as [|x l] eqn:Hb.
  - injection H as _ <-. split; [reflexivity|].
    destruct (batches s) as [d0 e0 st0 sa0 c0]. simpl in *. subst sa0. reflexivity.
  - apply bind_inv in H. destruct H as [(e & Hx & He) | (u1 & s2 & Hx & H)]; [subst; discriminate|].
    assert (Hk : keeps (qb_is (queues s) (batches s))
                   (iter_m (fun g => exec ok (SCreate (fst g) None) ;;; exec ok (SHyper (fst g)) ;;;
                                     execute_values ok (SInsert (fst g)) (snd g))
                           (states_by_table now (x :: l)))).
    { apply keeps_iter_m. intros g.
      apply keeps_bind; [apply keeps_exec_blind, qb_blind | intros _].
      apply keeps_bind; [apply keeps_exec_blind, qb_blind | intros _].
      apply keeps_execute_values_qb. }
    destruct (Hk _ _ _ Hx (conj eq_refl eq_refl)) as [Hq Hbb].
    unfold modify in H. injection H as _ <-. simpl. rewrite Hq, Hbb. split; reflexivity.
Qed.

End WriteOk.

Lemma flushed_effect ok now st st' :
  loop_iter ok now st = (st', Flushed) ->
  queues st' = empty_five /\
  batches st' = mkFive [] [] [] [] (f_command (batches st) ++ f_command (queues st)) /\
  conn st' = Some (server st').
Proof.
  intros H. unfold loop_iter in H.
  destruct (db_tick ok now st) as [[e|u] s1] eqn:Ht;
    [destruct e; discriminate H | injection H as <-].
  unfold db_tick in Ht.
  apply bind_inv in Ht. destruct Ht as [(e0 & Hg & _) | (c & s0 & Hg & Ht)]; [discriminate|].
  unfold gets in Hg. injection Hg as <- <-.
  apply bind_inv in Ht. destruct Ht as [(e1 & Hph & He1) | (u1 & s2 & Hph & Ht)]; [discriminate|].
  assert (H2 : queues s2 = queues st /\ batches s2 = batches st).
  { destruct (conn st) as [v|].
    - injection Hph as _ <-. split; reflexivity.
    - refine (keeps_bind _ _ _ (keeps_connect_blind _ (qb_blind _ _) ok)
                (fun _ => keeps_setup_blind _ (qb_blind _ _) ok) _ _ _ Hph (conj eq_refl eq_refl)). }
  destruct H2 as [Hq2 Hb2].
  apply bind_inv in Ht. destruct Ht as [(e2 & Hd & _) | (u2 & s3 & Hd & Ht)]; [discriminate|].
  unfold drain, modify in Hd. injection Hd as _ <-.
  apply bind_inv in Ht. destruct Ht as [(e3 & _ & He3) | (u3 & s4 & H4 & Ht)]; [subst; discriminate|].
  apply bind_inv in Ht. destruct Ht as [(e4 & _ & He4) | (u4 & s5 & H5 & Ht)]; [subst; discriminate|].
  apply bind_inv in Ht. destruct Ht as [(e5 & _ & He5) | (u5 & s6 & H6 & Ht)]; [subst; discriminate|].
  apply bind_inv in Ht. destruct Ht as [(e6 & _ & He6) | (u6 & s7 & H7 & Ht)]; [subst; discriminate|].
  destruct (write_discovery_ok ok now _ _ _ H4) as [Q4 B4].
  destruct (write_entity_ok ok now _ _ _ H5) as [Q5 B5].
  destruct (write_status_ok ok now _ _ _ H6) as [Q6 B6].
  destruct (write_state_ok ok now _ _ _ H7) as [Q7 B7].
  destruct (commit_ok_effect _ _ _ _ Ht) as (v & Hc & ->). simpl.
  rewrite Q7, Q6, Q5, Q4, B7, B6, B5, B4. simpl. rewrite Hq2, Hb2.
  split; [reflexivity | split; reflexivity].
Qed.


Lemma write_status_rows ok now s u s' v :
  write_status ok now s = (inr u, s') -> conn s = Some v ->
  exists v', conn s' = Some v' /\ grows v v' /\
             incl (map (status_row now) (f_status (batches s))) (rows_of "device_status" v').
Proof.
  intros H Hc. unfold write_status in H.
  apply bind_inv in H. destruct H as [(e & Hg & _) | (b & s0 & Hg & H)]; [discriminate|].
  unfold gets in Hg. injection Hg as <- <-.
  destruct (f_status (batches s)) as [|x l] eqn:Hb.
  - injection H as _ <-. exists v. split; [exact Hc|]. split; [apply grows_refl | intros y []].
  - apply bind_inv in H. destruct H as [(e & Hx & He) | (u1 & s2 & Hx & H)]; [subst; discriminate|].
    destruct u1.
    destruct (insert_pages_effect ok _ _ _ _ v Hx Hc) as (v' & Hc' & Hg' & Hi').
    rewrite pages_concat in Hi'.
    unfold modify in H. injection H as _ <-.
    exists v'. split; [exact Hc'|]. split; [exact Hg' | exact Hi'].
Qed.

Lemma write_state_grows ok now s u s' v :
  write_state ok now s = (inr u, s') -> conn s = Some v ->
  exists v', conn s' = Some v' /\ grows v v'.
Proof.
  intros H Hc. unfold write_state in H.
  apply bind_inv in H. destruct H as [(e & Hg & _) | (b & s0 & Hg & H)]; [discriminate|].
  unfold gets in Hg. injection Hg as <- <-.
  destruct (f_state (batches s)) as [|x l] eqn:Hb.
  - injection H as _ <-. exists v. split; [exact Hc | apply grows_refl].
  - apply bind_inv in H. destruct H as [(e & Hx & He) | (u1 & s2 & Hx & H)]; [subst; discriminate|].
    destruct u1.
    destruct (groups_effect ok _ _ _ v Hx Hc) as (v' & Hc' & Hg' & _).
    unfold modify in H. injection H as _ <-.
    exists v'. split; [exact Hc' | exact Hg'].
Qed.

Lemma flushed_status_rows ok now st st' m :
  loop_iter ok now st = (st', Flushed) ->
  In m (f_status (batches st) ++ f_status (queues st)) ->
  In (status_row now m) (rows_of "device_status" (server st')).
Proof.
  intros H Hin. unfold loop_iter in H.
  destruct (db_tick ok now st) as [[e|u] s1] eqn:Ht;
    [destruct e; discriminate H | injection H as <-].
  unfold db_tick in Ht.
  apply bind_inv in Ht. destruct Ht as [(e0 & Hg & _) | (c & s0 & Hg & Ht)]; [discriminate|].
  unfold gets in Hg. injection Hg as <- <-.
  apply bind_inv in Ht. destruct Ht as [(e1 & Hph & He1) | (u1 & s2 & Hph & Ht)]; [discriminate|].
  assert (H2 : qb_is (queues st) (batches st) s2 /\ conn_open s2).
  { destruct (conn st) as [v|] eqn:Hc.
    - injection Hph as _ <-. split; [split; reflexivity|]. unfold conn_open. rewrite Hc. discriminate.
    - split.
      + refine (keeps_bind _ _ _ (keeps_connect_blind _ (qb_blind _ _) ok)
                  (fun _ => keeps_setup_blind _ (qb_blind _ _) ok) _ _ _ Hph (conj eq_refl eq_refl)).
      + destruct u1. eapply connect_phase_opens. exact Hph. }
  destruct H2 as [[Hq2 Hb2] Ho2].
  apply bind_inv in Ht. destruct Ht as [(e2 & Hd & _) | (u2 & s3 & Hd & Ht)]; [discriminate|].
  unfold drain, modify in Hd. injection Hd as _ <-.
  apply bind_inv in Ht. destruct Ht as [(e3 & _ & He3) | (u3 & s4 & H4 & Ht)]; [subst; discriminate|].
  apply bind_inv in Ht. destruct Ht as [(e4 & _ & He4) | (u4 & s5 & H5 & Ht)]; [subst; discriminate|].
  apply bind_inv in Ht. destruct Ht as [(e5 & _ & He5) | (u5 & s6 & H6 & Ht)]; [subst; discriminate|].
  apply bind_inv in Ht. destruct Ht as [(e6 & _ & He6) | (u6 & s7 & H7 & Ht)]; [subst; discriminate|].
  assert (Ho4 : conn_open s4).
  { refine (keeps_write_discovery ok now conn_open (keeps_exec_open ok) _ _ _ _ H4 Ho2).
    intros x Hx; exact Hx. }
  assert (Ho5 : conn_open s5).
  { refine (keeps_write_entity ok now conn_open (keeps_exec_open ok) _ _ _ _ H5 Ho4).
    intros x Hx; exact Hx. }
  destruct (write_discovery_ok ok now _ _ _ H4) as [_ B4].
  destruct (write_entity_ok ok now _ _ _ H5) as [_ B5].
  destruct (conn s5) as [v5|] eqn:Hc5; [|exfalso; exact (Ho5 Hc5)].
  destruct (write_status_rows ok now _ _ _ v5 H6 Hc5) as (v6 & Hc6 & _ & Hi6).
  destruct (write_state_grows ok now _ _ _ v6 H7 Hc6) as (v7 & Hc7 & Hg7).
  destruct (commit_ok_effect _ _ _ _ Ht) as (v & Hc & ->). rewrite Hc7 in Hc. injection Hc as <-.
  simpl. apply (proj1 (Hg7 "device_status")). apply Hi6.
  rewrite B5, B4. simpl. rewrite Hq2, Hb2. apply in_map. exact Hin.
Qed.

(** ** Blocked writer *)

Lemma on_message_discovery_appends json_loads t p q :
  exists l, f_discovery (fst (on_mqtt_message json_loads t p q)) = f_discovery q ++ l.
Proof.
  unfold on_mqtt_message.
  repeat match goal with
         | |- context [match ?x with _ => _ end] => destruct x
         | |- context [if ?b then _ else _] => destruct b
         end; simpl;
    first [exists []; rewrite app_nil_r; reflexivity | eexists; reflexivity].
Qed.

Lemma write_discovery_blocked ok now st d err :
  In d (f_discovery (batches st)) -> discovery_row now d = inl err ->
  exists err', write_discovery ok now st = (inl err', st).
Proof.
  intros Hin Hrow. unfold write_discovery, bind, gets.
  destruct (f_discovery (batches st)) as [|x l] eqn:Hb; [contradiction|].
  destruct (map_exn_fails (discovery_row now) (x :: l) d err Hin Hrow) as [err' Herr].
  exists err'. unfold lift. rewrite Herr. reflexivity.
Qed.

Lemma db_tick_blocked_by_discovery ok now st r st' d err :
  discovery_row now d = inl err ->
  discovery_pending d st ->
  db_tick ok now st = (r, st') ->
  discovery_pending d st' /\ (forall u, r <> inr u).
Proof.
  intros Hrow Hpend H. unfold db_tick in H.
  apply bind_inv in H. destruct H as [(e0 & Hg & _) | (c & s0 & Hg & H)]; [discriminate|].
  unfold gets in Hg. injection Hg as <- <-.
  assert (Hbl : db_blind (discovery_pending d)) by (intros s0 c sv Hs0; exact Hs0).
  apply bind_inv in H. destruct H as [(e1 & Hph & He1) | (u & s2 & Hph & Hrest)].
  - split; [|subst r; discriminate].
    destruct (conn st).
    + inversion Hph.
    + refine (keeps_bind _ _ _ (keeps_connect_blind _ Hbl ok)
                (fun _ => keeps_setup_blind _ Hbl ok) _ _ _ Hph Hpend).
  - assert (Hp2 : discovery_pending d s2).
    { destruct (conn st).
      + inversion Hph; subst. exact Hpend.
      + refine (keeps_bind _ _ _ (keeps_connect_blind _ Hbl ok)
                  (fun _ => keeps_setup_blind _ Hbl ok) _ _ _ Hph Hpend). }
    apply bind_inv in Hrest. destruct Hrest as [(e2 & Hd & _) | (u2 & s3 & Hd & Hrest)];
      [discriminate|].
    unfold drain, modify in Hd. injection Hd as _ Hs3. subst s3.
    set (s3 := mkPState (conn s2) (server s2) empty_five (append_five (batches s2) (queues s2))) in *.
    assert (Hb3 : In d (f_discovery (batches s3))).
    { unfold discovery_pending in Hp2. simpl. apply in_app_iff in Hp2. apply in_app_iff. tauto. }
    destruct (write_discovery_blocked ok now s3 d err Hb3 Hrow) as [err' Hw].
    unfold bind at 1 in Hrest. rewrite Hw in Hrest. injection Hrest as Hr Hs'. subst r st'.
    split; [|discriminate].
    unfold discovery_pending. apply in_app_iff. right. exact Hb3.
Qed.

Section Blocked.

Variable pend : pstate -> Prop.
Hypothesis Hmsg : forall json_loads t p st,
  pend st -> pend (mkPState (conn st) (server st) (fst (on_mqtt_message json_loads t p (queues st))) (batches st)).
Hypothesis Hblind : db_blind pend.
Hypothesis Htick : forall ok now st r st',
  pend st -> db_tick ok now st = (r, st') -> pend st' /\ (forall u, r <> inr u).

Lemma run_blocked json_loads evs : forall st,
  pend st ->
  pend (fst (run json_loads evs st)) /\ ~ In Flushed (snd (run json_loads evs st)) /\
  same_tables (server (fst (run json_loads evs st))) (server st).
Proof.
  induction evs as [|ev evs IH]; intros st Hp; simpl.
  - split; [exact Hp|]. split; [tauto | apply same_tables_refl].
  - destruct ev as [t p | ok now].
    + destruct (IH _ (Hmsg json_loads t p st Hp)) as (H1 & H2 & H3). auto.
    + destruct (loop_iter ok now st) as [st1 o] eqn:Hl.
      assert (Hst1 : pend st1 /\ o <> Flushed /\ same_tables (server st1) (server st)).
      { unfold loop_iter in Hl.
        destruct (db_tick ok now st) as [r s1] eqn:Ht.
        destruct (Htick ok now st r s1 Hp Ht) as [Hs1 Hr].
        destruct r as [e|u]; [|exfalso; exact (Hr u eq_refl)].
        destruct (db_tick_fail_tables ok now st e s1 Ht) as [Hsame _].
        destruct e; injection Hl as <- <-; (split; [first [exact Hs1 | exact (Hblind _ None (server s1) Hs1)] | split; [discriminate | exact Hsame]]). }
      destruct Hst1 as (Hst1 & Ho & Hs1).
      destruct (run json_loads evs st1) as [st2 os] eqn:Hrun.
      destruct (IH st1 Hst1) as (IH1 & IH2 & IH3). rewrite Hrun in IH1, IH2, IH3.
      simpl. split; [exact IH1|]. split.
      * intros [Hf|Hf]; [exact (Ho Hf) | exact (IH2 Hf)].
      * eapply same_tables_trans; eassumption.
Qed.

End Blocked.

Lemma entity_row_fail_any_now now now' e err :
  entity_row now e = inl err -> entity_row now' e = inl err.
Proof.
  revert now now'. intros now now'. unfold entity_row, sbind.
  repeat match goal with
         | |- context [match ?x with inl _ => _ | inr _ => _ end] => destruct x
         end; intros H; first [exact H | discriminate H].
Qed.


Lemma add_to_group_rows tn' r g tn :
  group_rows tn (add_to_group tn' r g) =
  if String.eqb tn' tn then group_rows tn g ++ [r] else group_rows tn g.
Proof.
  unfold group_rows. induction g as [|[n rs] g IH]; simpl.
  - destruct (String.eqb tn' tn); reflexivity.
  - destruct (String.eqb_spec n tn') as [->|Hn]; simpl.
    + destruct (String.eqb tn' tn); reflexivity.
    + destruct (String.eqb_spec n tn) as [->|Hnt]; simpl.
      * destruct (String.eqb_spec tn' tn) as [->|]; [contradiction | reflexivity].
      * exact IH.
Qed.

Lemma add_to_group_names tn r g n :
  In n (map fst (add_to_group tn r g)) <-> n = tn \/ In n (map fst g).
Proof.
  induction g as [|[m rs] g IH]; simpl.
  - intuition congruence.
  - destruct (String.eqb_spec m tn) as [->|Hm]; simpl; [intuition congruence|]. rewrite IH. intuition congruence.
Qed.

Lemma add_to_group_nodup tn r g :
  NoDup (map fst g) -> NoDup (map fst (add_to_group tn r g)).
Proof.
  induction g as [|[m rs] g IH]; simpl; intros H.
  - constructor; [intros [] | constructor].
  - inversion H as [|? ? Hni Hnd]; subst.
    destruct (String.eqb_spec m tn) as [->|Hm]; simpl.
    + constructor; assumption.
    + constructor; [|exact (IH Hnd)].
      rewrite add_to_group_names. intros [Heq|Hin]; [exact (Hm Heq) | exact (Hni Hin)].
Qed.

Lemma states_fold now b : forall acc,
  let res := fold_left (fun g m => add_to_group (table_name (fst m)) (state_row now m) g) b acc in
  (NoDup (map fst acc) -> NoDup (map fst res)) /\
  (forall tn, group_rows tn res =
     group_rows tn acc ++ map (state_row now) (filter (fun m => String.eqb (table_name (fst m)) tn) b)) /\
  (forall n, In n (map fst res) -> In n (map fst acc) \/ exists m, In m b /\ n = table_name (fst m)).
Proof.
  induction b as [|x b IH]; intros acc.
  - simpl. split; [tauto|]. split; [intros tn; rewrite app_nil_r; reflexivity | tauto].
  - cbn [fold_left].
    destruct (IH (add_to_group (table_name (fst x)) (state_row now x) acc)) as (H1 & H2 & H3).
    split; [|split].
    + intros Hnd. apply H1. apply add_to_group_nodup. exact Hnd.
    + intros tn. rewrite H2, add_to_group_rows. cbn [filter].
      destruct (String.eqb (table_name (fst x)) tn); cbn [map]; [rewrite <- app_assoc|]; reflexivity.
    + intros n Hn. destruct (H3 n Hn) as [Hin | (m & Hm & ->)].
      * apply add_to_group_names in Hin. destruct Hin as [-> | Hin].
        -- right. exists x. split; [left; reflexivity | reflexivity].
        -- left. exact Hin.
      * right. exists m. split; [right; exact Hm | reflexivity].
Qed.

(** X7: [states_by_table] gives each table name at most once; the rows of
    a table are the rows of the state messages of that table, in arrival
    order; and every table name comes from some message of the batch. *)
Theorem states_grouped_by_table :
  forall now (batch : list (string * string)),
    NoDup (map fst (states_by_table now batch)) /\
    (forall tn, group_rows tn (states_by_table now batch) =
       map (state_row now) (filter (fun m => String.eqb (table_name (fst m)) tn) batch)) /\
    (forall g, In g (states_by_table now batch) -> exists m, In m batch /\ fst g = table_name (fst m)).
Proof.
  intros now batch. destruct (states_fold now batch []) as (H1 & H2 & H3).
  split; [apply H1; constructor|]. split.
  - intros tn. unfold states_by_table. rewrite H2. reflexivity.
  - intros g Hg. destruct (H3 (fst g) (in_map fst _ _ Hg)) as [[] | H]. exact H.
Qed.

(** ** The configuration wizard *)

Lemma wizard_loop_done {A} (test : test_result -> option bool) (rounds : list (wizard_round A)) d :
  wizard_loop test rounds = StepDone d <->
  exists pre post r again, rounds = pre ++ Round d r again :: post /\ test r = Some true /\
    Forall (fun x => exists c r', x = Round c r' true /\ test r' = Some false) pre.
Proof.
  split.
  - induction rounds as [|[cfg r again| |] rest IH]; simpl; intros H; try discriminate.
    destruct (test r) as [[|]|] eqn:Ht; try discriminate.
    + injection H as ->. exists [], rest, r, again. split; [reflexivity | split; [exact Ht | constructor]].
    + destruct again; [|discriminate].
      destruct (IH H) as (pre & post & r' & ag & -> & Hr' & Hf).
      exists (Round cfg r true :: pre), post, r', ag.
      split; [reflexivity | split; [exact Hr' | constructor; [exists cfg, r; split; [reflexivity | exact Ht] | exact Hf]]].
  - intros (pre & post & r & again & -> & Hr & Hf).
    induction Hf as [|x pre (c & r' & -> & Hr') Hf IH]; simpl.
    + rewrite Hr. reflexivity.
    + rewrite Hr'. exact IH.
Qed.

Lemma wizard_loop_prefix {A} (test : test_result -> option bool) (pre rest : list (wizard_round A)) :
  Forall (fun x => exists c r', x = Round c r' true /\ test r' = Some false) pre ->
  wizard_loop test (pre ++ rest) = wizard_loop test rest.
Proof.
  intros Hf. induction Hf as [|x pre (c & r' & -> & Hr') Hf IH]; simpl; [reflexivity|].
  rewrite Hr'. exact IH.
Qed.

Lemma test_db_true r : test_db_connection r = Some true <-> r = TestConnects.
Proof. destruct r; simpl; split; intros H; congruence. Qed.

Lemma test_mqtt_true r : test_mqtt_connection r = Some true <-> r = TestConnects.
Proof. destruct r; simpl; split; intros H; congruence. Qed.

Lemma test_db_false {A} (x : wizard_round A) :
  (exists c r', x = Round c r' true /\ test_db_connection r' = Some false) <->
  (exists c, x = Round c TestRaisesDbError true).
Proof.
  split.
  - intros (c & r' & -> & Hr). destruct r'; try discriminate. exists c. reflexivity.
  - intros (c & ->). exists c, TestRaisesDbError. split; reflexivity.
Qed.

Lemma test_mqtt_false {A} (x : wizard_round A) :
  (exists c r', x = Round c r' true /\ test_mqtt_connection r' = Some false) <->
  (exists c r', x = Round c r' true /\ (r' = TestRaisesDbError \/ r' = TestRaisesOther)).
Proof.
  split.
  - intros (c & r' & -> & Hr). exists c, r'. split; [reflexivity|].
    destruct r'; try discriminate; tauto.
  - intros (c & r' & -> & [-> | ->]); exists c; eexists; split; reflexivity.
Qed.

Lemma Forall_iff {T} (P Q : T -> Prop) l : (forall x, P x <-> Q x) -> (Forall P l <-> Forall Q l).
Proof.
  intros H. split; intros Hf; eapply Forall_impl; try exact Hf; intros x Hx; apply H; exact Hx.
Qed.

Lemma db_loop_done {A} (rounds : list (wizard_round A)) d :
  wizard_loop test_db_connection rounds = StepDone d <->
  exists pre post again, rounds = pre ++ Round d TestConnects again :: post /\
    Forall (fun x => exists c, x = Round c TestRaisesDbError true) pre.
Proof.
  rewrite wizard_loop_done. split.
  - intros (pre & post & r & again & -> & Hr & Hf). apply test_db_true in Hr. subst r.
    exists pre, post, again. split; [reflexivity|]. revert Hf. apply Forall_iff. intros x. first [apply test_db_false | symmetry; apply test_db_false].
  - intros (pre & post & again & -> & Hf). exists pre, post, TestConnects, again.
    split; [reflexivity | split; [reflexivity|]]. revert Hf. apply Forall_iff. intros x. first [apply test_db_false | symmetry; apply test_db_false].
Qed.

Lemma mqtt_loop_done {A} (rounds : list (wizard_round A)) d :
  wizard_loop test_mqtt_connection rounds = StepDone d <->
  exists pre post again, rounds = pre ++ Round d TestConnects again :: post /\
    Forall (fun x => exists c r, x = Round c r true /\ (r = TestRaisesDbError \/ r = TestRaisesOther)) pre.
Proof.
  rewrite wizard_loop_done. split.
  - intros (pre & post & r & again & -> & Hr & Hf). apply test_mqtt_true in Hr. subst r.
    exists pre, post, again. split; [reflexivity|]. revert Hf. apply Forall_iff. intros x. first [apply test_mqtt_false | symmetry; apply test_mqtt_false].
  - intros (pre & post & again & -> & Hf). exists pre, post, TestConnects, again.
    split; [reflexivity | split; [reflexivity|]]. revert Hf. apply Forall_iff. intros x. first [apply test_mqtt_false | symmetry; apply test_mqtt_false].
Qed.

(** X9: the wizard saves exactly the first database configuration and
    the first MQTT configuration whose connection test succeeds, every
    earlier round having failed its test (for the database: with a
    [psycopg2.Error]; for MQTT: with any [Exception]) and the user asking
    to try again, and only when writing the file completes. *)
Theorem configure_saves_tested_configuration :
  forall A B (db_rounds : list (wizard_round A)) (mqtt_rounds : list (wizard_round B)) save_ok d m,
    configure db_rounds mqtt_rounds save_ok = ConfigSaved d m <->
    save_ok = true /\
    (exists pre post again, db_rounds = pre ++ Round d TestConnects again :: post /\
       Forall (fun x => exists c, x = Round c TestRaisesDbError true) pre) /\
    (exists pre post again, mqtt_rounds = pre ++ Round m TestConnects again :: post /\
       Forall (fun x => exists c r, x = Round c r true /\ (r = TestRaisesDbError \/ r = TestRaisesOther)) pre).
Proof.
  intros A B dbr mr save_ok d m. rewrite <- db_loop_done, <- mqtt_loop_done. unfold configure.
  split.
  - destruct (wizard_loop test_db_connection dbr) as [d'| | |]; try discriminate.
    destruct (wizard_loop test_mqtt_connection mr) as [m'| | |]; try discriminate.
    destruct save_ok; [|discriminate]. intros H. injection H as -> ->. auto.
  - intros (-> & -> & ->). reflexivity.
Qed.

(** ** Device names *)

(** X11: for a topic [device/rest] whose device part has no '/', the first
    segment is [device], the table name is [esphome_] followed by [device]
    with '-' replaced by '_', and the status row's device column is
    [device]; a topic with no '/' is its own first segment. *)
Theorem device_name_is_first_level :
  forall now (device rest payload : string),
    no_slash device = true ->
    Py.first_segment ((device ++ String "/" rest)%string) = device /\
    table_name ((device ++ String "/" rest)%string) = ("esphome_" ++ Py.replace_dash device)%string /\
    status_row now ((device ++ String "/" rest)%string, payload) =
      [CText now; CText device; CText payload; CJsonb (raw_of ((device ++ String "/" rest)%string) payload)] /\
    Py.first_segment device = device.
Proof.
  intros now device rest payload Hd.
  assert (H1 : Py.first_segment ((device ++ String "/" rest)%string) = device).
  { unfold Py.first_segment, Py.split_slash. rewrite split_aux_no_slash by exact Hd. simpl. reflexivity. }
  split; [exact H1|]. split; [unfold table_name; rewrite H1; reflexivity|].
  split; [simpl; rewrite H1; reflexivity|].
  unfold Py.first_segment, Py.split_slash.
  rewrite <- (str_app_nil_r device) at 1. rewrite split_aux_no_slash by exact Hd. reflexivity.
Qed.

(** ** The message callback changes one queue at most *)

Lemma decode_same payload s : Utf8.decode payload = Some s -> s = payload.
Proof. unfold Utf8.decode. destruct (Utf8.valid _); intros H; [injection H as <-; reflexivity | discriminate]. Qed.

(** X2: a message changes at most one queue, by one item: either no
    queue changes, or exactly one of the five queues gets one item
    (the parsed JSON, or the pair of topic and payload) and nothing is logged. *)
Theorem on_message_enqueues_at_most_one :
  forall (json_loads : string -> loads_exn + json) topic payload q,
    let r := on_mqtt_message json_loads topic payload q in
    fst r = q \/
    (snd r = LogNothing /\
     ((exists d, fst r = push_discovery d q) \/ (exists e, fst r = push_entity e q) \/
      fst r = push_status (topic, payload) q \/ fst r = push_state (topic, payload) q \/
      fst r = push_command (topic, payload) q)).
Proof.
  intros json_loads topic payload q. simpl. unfold on_mqtt_message.
  destruct (Utf8.decode payload) as [s|] eqn:Hdec; [|left; reflexivity].
  apply decode_same in Hdec. subst s.
  destruct (Py.contains "esphome/discover" topic).
  { destruct (json_loads payload) as [[| |]|d];
      [left; reflexivity .. | right; split; [reflexivity | left; exists d; reflexivity]]. }
  destruct (Py.contains "homeassistant" topic && Py.endswith "/config" topic).
  { destruct (json_loads payload) as [[| |]|e]; [left; reflexivity .. |].
    destruct (contains_key "device" e) as [?|[|]]; try (left; reflexivity).
    destruct (getitem e "device") as [?|dev]; try (left; reflexivity).
    destruct (contains_key "identifiers" dev) as [?|[|]]; try (left; reflexivity).
    right. split; [reflexivity | right; left; exists e; reflexivity]. }
  destruct (Py.endswith "/status" topic); [right; split; [reflexivity | tauto]|].
  destruct (Py.endswith "/state" topic); [right; split; [reflexivity | tauto]|].
  destruct (Py.endswith "/command" topic); [right; split; [reflexivity | tauto]|].
  left. reflexivity.
Qed.

(** X10: an exception other than [psycopg2.Error] in the database test
    ends the wizard with an exception even when the user would try
    again, whereas a failing MQTT test is followed by the next round
    whatever [Exception] it raised; a [KeyboardInterrupt] in the MQTT
    test still ends the wizard with an exception. *)
Theorem configure_test_exceptions :
  (forall A B (pre post : list (wizard_round A)) cfg r again (mqtt_rounds : list (wizard_round B)) save_ok,
     Forall (fun x => exists c, x = Round c TestRaisesDbError true) pre ->
     r = TestRaisesOther \/ r = TestInterrupted ->
     configure (pre ++ Round cfg r again :: post) mqtt_rounds save_ok = ConfigRaised) /\
  (forall A B (db_rounds : list (wizard_round A)) (cfg : B) r rest save_ok,
     r = TestRaisesDbError \/ r = TestRaisesOther ->
     configure db_rounds (Round cfg r true :: rest) save_ok = configure db_rounds rest save_ok) /\
  (forall A B (db_rounds : list (wizard_round A)) (cfg : B) again rest save_ok d,
     wizard_loop test_db_connection db_rounds = StepDone d ->
     configure db_rounds (Round cfg TestInterrupted again :: rest) save_ok = ConfigRaised).
Proof.
  split; [|split].
  - intros A B pre post cfg r again mr save_ok Hf Hr. unfold configure.
    rewrite wizard_loop_prefix.
    + simpl. destruct Hr as [-> | ->]; reflexivity.
    + revert Hf. apply Forall_iff. intros x. first [apply test_db_false | symmetry; apply test_db_false].
  - intros A B dbr cfg r rest save_ok Hr. unfold configure.
    destruct Hr as [-> | ->]; reflexivity.
  - intros A B dbr cfg again rest save_ok d Hd. unfold configure. rewrite Hd. reflexivity.
Qed.

Lemma discovery_row_needs_name now d err :
  getitem d "name" = inl err -> discovery_row now d = inl err.
Proof. intros H. unfold discovery_row. rewrite H. reflexivity. Qed.

Lemma discovery_pending_msg d json_loads t p st :
  discovery_pending d st ->
  discovery_pending d (mkPState (conn st) (server st) (fst (on_mqtt_message json_loads t p (queues st))) (batches st)).
Proof.
  unfold discovery_pending. simpl.
  destruct (on_message_discovery_appends json_loads t p (queues st)) as [l Hl].
  rewrite Hl. intros Hp. apply in_app_iff in Hp. apply in_app_iff.
  destruct Hp as [Hp|Hp]; [left; apply in_app_iff; left; exact Hp | right; exact Hp].
Qed.

Lemma discovery_pending_blind d : db_blind (discovery_pending d).
Proof. intros s c sv Hs. exact Hs. Qed.

Lemma subscribed_topics_routing_witness :
  mqtt_match "+/status" "dev1/status" = true /\
  on_mqtt_message loads "dev1/status" "online" empty_five = (push_status ("dev1/status", "online") empty_five, LogNothing) /\
  mqtt_match "+/+/+/state" "dev1/sensor/temp/state" = true /\
  on_mqtt_message loads "dev1/sensor/temp/state" "21.5" empty_five =
    (push_state ("dev1/sensor/temp/state", "21.5") empty_five, LogNothing).
Proof.
  destruct subscribed_topics_routing as (_ & _ & Hst & Hsa & _).
  split; [vm_compute; reflexivity|]. split.
  - apply Hst; vm_compute; reflexivity.
  - split; [vm_compute; reflexivity|]. apply Hsa; vm_compute; reflexivity.
Defined.

(** X3: when the server acknowledges every commit, an iteration that
    does not complete (a statement or a row construction failed) leaves
    every table's rows and hypertable flag as they were committed; if a
    connection was already open, the committed database is exactly the
    same.  A refused commit is left out: one whose acknowledgement is
    lost raises although the server committed. *)
Theorem failed_iteration_keeps_committed_data :
  forall ok now st st' o,
    ok SCommit = true ->
    loop_iter ok now st = (st', o) -> o <> Flushed ->
    (forall n, rows_of n (server st') = rows_of n (server st) /\
               is_hypertable n (server st') = is_hypertable n (server st)) /\
    (conn st <> None -> server st' = server st).
Proof.
  intros ok now st st' o _ H Ho. unfold loop_iter in H.
  destruct (db_tick ok now st) as [[e|u] s1] eqn:Ht.
  - destruct (db_tick_fail_tables ok now st e s1 Ht) as [Hs Hc].
    destruct e; injection H as <- _; exact (conj Hs Hc).
  - injection H as _ <-. contradiction.
Qed.

Lemma failed_iteration_keeps_committed_data_witness :
  snd (loop_iter entity_write_fails "t1"
         (mkPState (Some provisioned) provisioned (mkFive [disc1] [ent1] [] [] []) empty_five)) = DbFailed /\
  server (fst (loop_iter entity_write_fails "t1"
         (mkPState (Some provisioned) provisioned (mkFive [disc1] [ent1] [] [] []) empty_five))) = provisioned.
Proof.
  split; [vm_compute; reflexivity|].
  apply (failed_iteration_keeps_committed_data entity_write_fails "t1"
           (mkPState (Some provisioned) provisioned (mkFive [disc1] [ent1] [] [] []) empty_five)
           _ DbFailed).
  - reflexivity.
  - vm_compute. reflexivity.
  - discriminate.
  - discriminate.
Defined.

(** X4: without a connection, when the server refuses the connection or
    the commit of the table setup, the iteration reports a database error
    and leaves the whole state (queues and batches included) unchanged. *)
Theorem refused_connection_changes_nothing :
  forall ok now st,
    conn st = None -> ok SConnect = false \/ ok SCommit = false ->
    loop_iter ok now st = (st, DbFailed).
Proof. exact refused_connection_iteration. Qed.

Lemma refused_connection_changes_nothing_witness :
  loop_iter refuses_connect "t1" (fresh (push_status ("dev1/status", "online") empty_five)) =
    (fresh (push_status ("dev1/status", "online") empty_five), DbFailed).
Proof.
  apply refused_connection_changes_nothing; [reflexivity | left; reflexivity].
Defined.

(** X5: after an iteration that completes, the writer's batches are
    all empty except the command batch, which keeps the earlier commands
    followed by the ones drained from the command queue; the connection
    is open and holds exactly the committed database. *)
Theorem completed_iteration_clears_batches :
  forall ok now st st',
    loop_iter ok now st = (st', Flushed) ->
    batches st' = mkFive [] [] [] [] (f_command (batches st) ++ f_command (queues st)) /\
    conn st' = Some (server st').
Proof.
  intros ok now st st' H. destruct (flushed_effect ok now st st' H) as (_ & Hb & Hc). exact (conj Hb Hc).
Qed.

Lemma completed_iteration_clears_batches_witness :
  batches (fst (loop_iter all_ok "t1"
    (mkPState None [] (push_command ("dev1/light/bulb/command", "TOGGLE") empty_five)
       (mkFive [] [] [("dev1/status", "online")] [] [("dev1/light/bulb/command", "ON")])))) =
    mkFive [] [] [] [] [("dev1/light/bulb/command", "ON"); ("dev1/light/bulb/command", "TOGGLE")].
Proof.
  apply (completed_iteration_clears_batches all_ok "t1"
           (mkPState None [] (push_command ("dev1/light/bulb/command", "TOGGLE") empty_five)
              (mkFive [] [] [("dev1/status", "online")] [] [("dev1/light/bulb/command", "ON")]))).
  vm_compute. reflexivity.
Defined.

(** X6: every status message waiting when an iteration completes is stored
    in [device_status] as the row (time, first topic level, payload,
    raw JSON of topic and payload). *)
Theorem completed_iteration_stores_status :
  forall ok now st st' topic payload,
    loop_iter ok now st = (st', Flushed) ->
    In (topic, payload) (f_status (batches st) ++ f_status (queues st)) ->
    In [CText now; CText (Py.first_segment topic); CText payload; CJsonb (raw_of topic payload)]
       (rows_of "device_status" (server st')).
Proof.
  intros ok now st st' topic payload H Hin.
  exact (flushed_status_rows ok now st st' (topic, payload) H Hin).
Qed.

Lemma completed_iteration_stores_status_witness :
  In [CText "t1"; CText "dev1"; CText "online"; CJsonb (raw_of "dev1/status" "online")]
     (rows_of "device_status"
        (server (fst (loop_iter all_ok "t1" (fresh (push_status ("dev1/status", "online") empty_five)))))).
Proof.
  apply (completed_iteration_stores_status all_ok "t1"
           (fresh (push_status ("dev1/status", "online") empty_five)) _ "dev1/status" "online").
  - vm_compute. reflexivity.
  - vm_compute. left. reflexivity.
Defined.

Lemma states_grouped_by_table_witness :
  group_rows "esphome_a" (states_by_table "t1" [("a/s/x/state", "1"); ("b/s/x/state", "2"); ("a/s/y/state", "3")]) =
    [state_row "t1" ("a/s/x/state", "1"); state_row "t1" ("a/s/y/state", "3")].
Proof.
  rewrite (proj1 (proj2 (states_grouped_by_table "t1" _))). vm_compute. reflexivity.
Defined.

(** X8: a successful connection and table setup leaves the four fixed
    tables present, changes no table's rows or hypertable flag, keeps the
    queues and batches, and opens a connection on the committed database;
    when the four tables already exist, the database is not changed. *)
Theorem connect_setup_provisions_fixed_tables :
  forall ok st st',
    (connect ok ;;; setup_database_tables ok) st = (inr tt, st') ->
    conn st' = Some (server st') /\ queues st' = queues st /\ batches st' = batches st /\
    (forall n, rows_of n (server st') = rows_of n (server st) /\
               is_hypertable n (server st') = is_hypertable n (server st)) /\
    (forall n, In n ["discovery_data"; "entity"; "device_status"; "command"] -> db_lookup n (server st') <> None) /\
    ((forall n, In n ["discovery_data"; "entity"; "device_status"; "command"] -> db_lookup n (server st) <> None) ->
     server st' = server st).
Proof. exact connect_phase_effect. Qed.

Lemma connect_setup_provisions_fixed_tables_witness :
  server (snd ((connect all_ok ;;; setup_database_tables all_ok) (mkPState None provisioned empty_five empty_five)))
    = provisioned.
Proof.
  apply (connect_setup_provisions_fixed_tables all_ok (mkPState None provisioned empty_five empty_five)).
  - vm_compute. reflexivity.
  - intros n Hn. simpl in Hn. destruct Hn as [<-|[<-|[<-|[<-|[]]]]]; vm_compute; discriminate.
Defined.

Lemma device_name_is_first_level_witness :
  Py.first_segment "living-room/sensor/temp/state" = "living-room" /\
  table_name "living-room/sensor/temp/state" = "esphome_living_room".
Proof.
  destruct (device_name_is_first_level "t1" "living-room" "sensor/temp/state" "21.5") as (H1 & H2 & _);
    [reflexivity|].
  split; [exact H1 | etransitivity; [exact H2 | vm_compute; reflexivity]].
Defined.

(** X12: once a discovery payload without [name] is waiting, no iteration
    of any run completes: the payload stays in the discovery queue or
    batch, and the committed rows and hypertable flags of every table
    stay as they were. *)
Theorem malformed_discovery_blocks_writer :
  forall (json_loads : string -> loads_exn + json) d err,
    getitem d "name" = inl err ->
    forall evs st, discovery_pending d st ->
      discovery_pending d (fst (run json_loads evs st)) /\
      ~ In Flushed (snd (run json_loads evs st)) /\
      (forall n, rows_of n (server (fst (run json_loads evs st))) = rows_of n (server st) /\
                 is_hypertable n (server (fst (run json_loads evs st))) = is_hypertable n (server st)).
Proof.
  intros json_loads d err Hname evs st Hp.
  apply (run_blocked (discovery_pending d)).
  - intros jl t p s Hs. apply discovery_pending_msg. exact Hs.
  - apply discovery_pending_blind.
  - intros ok now s r s' Hs Ht.
    exact (db_tick_blocked_by_discovery ok now s r s' d err (discovery_row_needs_name now d err Hname) Hs Ht).
  - exact Hp.
Qed.

Lemma malformed_discovery_blocks_writer_witness :
  discovery_pending disc_no_name
    (fst (run loads [ETick all_ok "t1"; ETick all_ok "t2"] (fresh (push_discovery disc_no_name empty_five)))) /\
  ~ In Flushed (snd (run loads [ETick all_ok "t1"; ETick all_ok "t2"] (fresh (push_discovery disc_no_name empty_five)))).
Proof.
  destruct (malformed_discovery_blocks_writer loads disc_no_name KeyError eq_refl
              [ETick all_ok "t1"; ETick all_ok "t2"] (fresh (push_discovery disc_no_name empty_five)))
    as (H1 & H2 & _).
  - vm_compute. left. reflexivity.
  - split; [exact H1 | exact H2].
Defined.

Lemma configure_saves_tested_configuration_witness :
  configure [Round "db1" TestRaisesDbError true; Round "db2" TestConnects false]
            [Round "m1" TestRaisesOther true; Round "m2" TestRaisesDbError true; Round "m3" TestConnects true]
            true =
    ConfigSaved "db2" "m3" /\
  configure [Round "db1" TestConnects false] [Round "m1" TestConnects false] false
    <> ConfigSaved "db1" "m1".
Proof.
  split.
  - apply configure_saves_tested_configuration. split; [reflexivity|]. split.
    + exists [Round "db1" TestRaisesDbError true], [], false. split; [reflexivity|].
      repeat constructor. exists "db1". reflexivity.
    + exists [Round "m1" TestRaisesOther true; Round "m2" TestRaisesDbError true], [], true.
      split; [reflexivity|].
      repeat constructor; [exists "m1", TestRaisesOther | exists "m2", TestRaisesDbError]; tauto.
  - intros H. apply configure_saves_tested_configuration in H. destruct H as [H _]. discriminate H.
Defined.

Lemma configure_test_exceptions_witness :
  configure [Round "db1" TestRaisesDbError true; Round "db2" TestRaisesOther true]
            [Round "m1" TestConnects false] true = ConfigRaised /\
  configure [Round "db1" TestConnects false]
            [Round "m1" TestRaisesOther true; Round "m2" TestConnects false] true =
    ConfigSaved "db1" "m2".
Proof.
  destruct configure_test_exceptions as (Hdb & Hmqtt & _). split.
  - apply (Hdb _ _ [Round "db1" TestRaisesDbError true] []).
    + repeat constructor. exists "db1". reflexivity.
    + left. reflexivity.
  - rewrite (Hmqtt _ _ [Round "db1" TestConnects false] "m1" TestRaisesOther [Round "m2" TestConnects false] true).
    + reflexivity.
    + right. reflexivity.
Defined.
